(** * Extinction laws of astropysics.obstools

    A shallow embedding of the dust-extinction part of
    [astropysics/obstools.py] (class [Extinction] and its subclasses) and
    the properties of it that the specification states.

    Numbers.  Python floats and numpy [float64] values are modelled by the
    real numbers: every arithmetic expression of the source is read as the
    real expression it rounds.  NaN, infinities, overflow and rounding are
    outside this model; statements are made at inputs where the source
    divides by non-zero values and takes logarithms of positive values.

    Python.  The source is Python 2 ([basestring], the [print] statement),
    compiled with [from __future__ import division].  Exceptions are
    modelled by the error type [result]; objects that the source mutates
    (the law itself, spectra) are passed explicitly as state. *)

From Stdlib Require Import String Ascii.
From Stdlib Require Import Reals Lra List Bool ZArith Lia Arith.
Import ListNotations.

Open Scope string_scope.
Open Scope R_scope.

(* ================================================================== *)
(** * Exceptions and the error monad *)
(* ================================================================== *)

(** The exception classes that the modelled code can raise.  The classes
    raised by the source itself carry their message. *)
Inductive exn : Type :=
| ValueError (msg : string)
| TypeError
| KeyError
| IndexError
| NameError (name : string)
| UnboundLocalError (name : string)
| AttributeError (name : string)
| NotImplementedError
| AssertionError
| PipelineError (msg : string).

Inductive result (A : Type) : Type :=
| Ok (a : A)
| Raise (e : exn).
Arguments Ok {A} a.
Arguments Raise {A} e.

Definition bind {A B : Type} (m : result A) (k : A -> result B) : result B :=
  match m with
  | Ok a => k a
  | Raise e => Raise e
  end.

Notation "x <- m ;; k" := (bind m (fun x => k))
  (at level 61, m at next level, right associativity).

(* ================================================================== *)
(** * Real-number helpers *)
(* ================================================================== *)

Definition Rltb (x y : R) : bool := if Rlt_dec x y then true else false.
Definition Rleb (x y : R) : bool := if Rle_dec x y then true else false.
Definition Rgeb (x y : R) : bool := Rleb y x.
Definition Rnonzero (x : R) : bool := if Req_dec_T x 0 then false else true.

(** [np.log10] and [10**y]. *)
Definition log10 (x : R) : R := ln x / ln 10.
Definition pow10 (y : R) : R := exp (y * ln 10).

(** [np.polyval(p, x)] and calling an [np.poly1d]: Horner evaluation,
    highest-degree coefficient first. *)
Definition polyval (p : list R) (x : R) : R :=
  fold_left (fun acc c => acc * x + c) p 0.

Fixpoint Rsum (l : list R) : R :=
  match l with
  | [] => 0
  | x :: l' => x + Rsum l'
  end.

Definition Rmean (l : list R) : R := Rsum l / INR (length l).

(* ================================================================== *)
(** * numpy values *)
(* ================================================================== *)

(** A numeric value is a scalar (a Python float or a numpy [float64]), a
    zero-dimensional [ndarray] or a one-dimensional [ndarray].  The
    difference between the first two is visible to [np.isscalar]. *)
Inductive npval : Type :=
| NScalar (r : R)
| NZeroD (r : R)
| NArray (l : list R).

Definition broadcast_error : exn :=
  ValueError "operands could not be broadcast together".

(** Elementwise combination of two one-dimensional arrays of equal
    length. *)
Fixpoint zipWith {A B C : Type} (op : A -> B -> C) (xs : list A) (ys : list B)
  : list C :=
  match xs, ys with
  | x :: xs', y :: ys' => op x y :: zipWith op xs' ys'
  | _, _ => []
  end.

(** Broadcasting of two one-dimensional arrays: equal lengths combine
    elementwise, length one stretches, anything else is an error. *)
Definition broadcast (op : R -> R -> R) (xs ys : list R) : result (list R) :=
  if Nat.eqb (length xs) (length ys) then Ok (zipWith op xs ys)
  else match xs, ys with
       | [x], _ => Ok (map (op x) ys)
       | _, [y] => Ok (map (fun x => op x y) xs)
       | _, _ => Raise broadcast_error
       end.

(** A binary ufunc ([+], [-], [*], [/]).  A result without dimensions is
    returned as a scalar, as numpy does. *)
Definition np_binop (op : R -> R -> R) (a b : npval) : result npval :=
  match a, b with
  | NArray xs, NArray ys => l <- broadcast op xs ys ;; Ok (NArray l)
  | NArray xs, (NScalar y | NZeroD y) => Ok (NArray (map (fun x => op x y) xs))
  | (NScalar x | NZeroD x), NArray ys => Ok (NArray (map (op x) ys))
  | (NScalar x | NZeroD x), (NScalar y | NZeroD y) => Ok (NScalar (op x y))
  end.

Definition np_add := np_binop Rplus.
Definition np_sub := np_binop Rminus.
Definition np_mul := np_binop Rmult.
Definition np_div := np_binop Rdiv.

(** A unary ufunc, and arithmetic with a Python float literal. *)
Definition np_map (g : R -> R) (a : npval) : npval :=
  match a with
  | NScalar x | NZeroD x => NScalar (g x)
  | NArray xs => NArray (map g xs)
  end.

(** In-place multiplication [a *= b] of a one-dimensional array: the
    result must have the shape of [a]. *)
Definition np_imul (a : list R) (b : npval) : result (list R) :=
  match b with
  | NScalar y | NZeroD y => Ok (map (fun x => x * y) a)
  | NArray ys =>
      if Nat.eqb (length a) (length ys) then Ok (zipWith Rmult a ys)
      else match ys with
           | [y] => Ok (map (fun x => x * y) a)
           | _ => Raise broadcast_error
           end
  end.

(** [np.std]: the population standard deviation; zero for a value without
    dimensions. *)
Definition np_std (a : npval) : R :=
  match a with
  | NScalar _ | NZeroD _ => 0
  | NArray xs =>
      let m := Rmean xs in
      sqrt (Rmean (map (fun x => (x - m) * (x - m)) xs))
  end.

(** Boolean masks: [x[m]] selects, [a[m] = v] writes the selected
    positions back in order. *)
Fixpoint compress (m : list bool) (xs : list R) : list R :=
  match m, xs with
  | true :: m', x :: xs' => x :: compress m' xs'
  | false :: m', _ :: xs' => compress m' xs'
  | _, _ => []
  end.

Fixpoint scatter (m : list bool) (vs : list R) (a : list R) : list R :=
  match m, a with
  | true :: m', x :: a' =>
      match vs with
      | v :: vs' => v :: scatter m' vs' a'
      | [] => x :: scatter m' [] a'
      end
  | false :: m', x :: a' => x :: scatter m' vs a'
  | _, _ => a
  end.

(* ================================================================== *)
(** * Python values *)
(* ================================================================== *)

(** An element of a Python list or tuple: a string or a number. *)
Inductive atom : Type :=
| AStr (s : string)
| ANum (r : R).

(** The values that callers pass to the methods of a law.  [PObjArr] is an
    [ndarray] whose element type is not numeric (strings or objects), as
    [np.array] builds from a list that contains a string. *)
Inductive pyval : Type :=
| PNone
| PStr (s : string)
| PNum (r : R)
| PZeroD (r : R)
| PArr (l : list R)
| PSeq (l : list atom)
| PObjArr (l : list atom).

(** The numeric reading of a value, for arithmetic with a float or an
    [ndarray]; [None] where that arithmetic is a [TypeError]. *)
Definition as_num (v : pyval) : option npval :=
  match v with
  | PNum r => Some (NScalar r)
  | PZeroD r => Some (NZeroD r)
  | PArr l => Some (NArray l)
  | _ => None
  end.

Definition numeric (v : pyval) : result npval :=
  match as_num v with
  | Some n => Ok n
  | None => Raise TypeError
  end.

Definition atom_is_str (a : atom) : bool :=
  match a with AStr _ => true | ANum _ => false end.

Definition atom_val (a : atom) : pyval :=
  match a with AStr s => PStr s | ANum r => PNum r end.

Fixpoint atoms_nums (l : list atom) : option (list R) :=
  match l with
  | [] => Some []
  | ANum r :: l' =>
      match atoms_nums l' with
      | Some rs => Some (r :: rs)
      | None => None
      end
  | AStr _ :: _ => None
  end.

(** [isinstance(v, basestring)]. *)
Definition is_basestring (v : pyval) : bool :=
  match v with PStr _ => true | _ => false end.

(** [np.isscalar]. *)
Definition np_isscalar (v : pyval) : bool :=
  match v with
  | PNum _ | PStr _ => true
  | _ => false
  end.

(** [np.array(v, copy=False)]. *)
Definition np_array (v : pyval) : pyval :=
  match v with
  | PNone => PObjArr []
  | PStr s => PObjArr [AStr s]
  | PNum r => PZeroD r
  | PZeroD r => PZeroD r
  | PArr l => PArr l
  | PSeq l =>
      match atoms_nums l with
      | Some rs => PArr rs
      | None => PObjArr l
      end
  | PObjArr l => PObjArr l
  end.

(** [np.atleast_1d]. *)
Definition np_atleast_1d (v : pyval) : pyval :=
  match np_array v with
  | PZeroD r => PArr [r]
  | w => w
  end.

Definition ambiguous_truth : exn :=
  ValueError "The truth value of an array with more than one element is ambiguous".

Definition atom_truth (a : atom) : bool :=
  match a with
  | AStr s => negb (String.eqb s "")
  | ANum r => Rnonzero r
  end.

(** Truth value of an object, as [if], [and] and [not] take it. *)
Definition truth (v : pyval) : result bool :=
  match v with
  | PNone => Ok false
  | PStr s => Ok (negb (String.eqb s ""))
  | PNum r | PZeroD r => Ok (Rnonzero r)
  | PArr [] => Ok false
  | PArr [r] => Ok (Rnonzero r)
  | PArr _ => Raise ambiguous_truth
  | PSeq l => Ok (negb (Nat.eqb (length l) 0))
  | PObjArr [] => Ok false
  | PObjArr [a] => Ok (atom_truth a)
  | PObjArr _ => Raise ambiguous_truth
  end.

(** The elements of an iterable, for [for e in v] and tuple unpacking. *)
Definition iter (v : pyval) : result (list atom) :=
  match v with
  | PArr l => Ok (map ANum l)
  | PSeq l | PObjArr l => Ok l
  | PStr s => Ok (map (fun c => AStr (String c EmptyString)) (list_ascii_of_string s))
  | PNone | PNum _ => Raise TypeError
  | PZeroD _ => Raise TypeError
  end.

(** [v[0]]. *)
Definition index0 (v : pyval) : result atom :=
  match v with
  | PNone | PNum _ => Raise TypeError
  | PZeroD _ => Raise IndexError
  | PStr s =>
      match s with
      | EmptyString => Raise IndexError
      | String c _ => Ok (AStr (String c EmptyString))
      end
  | PArr l =>
      match l with [] => Raise IndexError | x :: _ => Ok (ANum x) end
  | PSeq l | PObjArr l =>
      match l with [] => Raise IndexError | a :: _ => Ok a end
  end.

(** [a, b = l]. *)
Definition unpack2 {A : Type} (l : list A) : result (A * A) :=
  match l with
  | [a; b] => Ok (a, b)
  | [] | [_] => Raise (ValueError "need more than 1 value to unpack")
  | _ => Raise (ValueError "too many values to unpack")
  end.

(* ================================================================== *)
(** * Strings *)
(* ================================================================== *)

(** [s.replace(old, new)] for a non-empty [old]: occurrences are replaced
    from the left and do not overlap.  [skip] counts the characters of a
    matched occurrence that are still to be dropped. *)
Fixpoint replace_from (old new s : string) (skip : nat) : string :=
  match s with
  | EmptyString => EmptyString
  | String c s' =>
      match skip with
      | S k => replace_from old new s' k
      | O =>
          if String.prefix old s
          then new ++ replace_from old new s' (String.length old - 1)
          else String c (replace_from old new s' 0)
      end
  end.

Definition str_replace (old new s : string) : string :=
  replace_from old new s 0.

(** [s.split(sep)] for a non-empty [sep]; [cur] is the piece read so
    far. *)
Fixpoint split_from (sep s : string) (skip : nat) (cur : string) : list string :=
  match s with
  | EmptyString => [cur]
  | String c s' =>
      match skip with
      | S k => split_from sep s' k cur
      | O =>
          if String.prefix sep s
          then cur :: split_from sep s' (String.length sep - 1) EmptyString
          else split_from sep s' 0 (cur ++ String c EmptyString)
      end
  end.

Definition str_split (sep s : string) : list string :=
  split_from sep s 0 EmptyString.

(* ================================================================== *)
(** * Spectra *)
(* ================================================================== *)

(** Modelled from the spec: the class [Spectrum] of [astropysics.spec],
    which is not part of this file.  A spectrum has a unit tag that
    selects the interpretation of its wavelength axis, and flux and error
    sequences; [sp_axis s u] is the axis as read under the unit [u], so
    that the attribute [x] is the axis under the current tag. *)
Record Spectrum : Type := mkSpectrum {
  sp_unit : string;
  sp_axis : string -> list R;
  sp_flux : list R;
  sp_err : list R
}.

Definition sp_x (s : Spectrum) : list R := sp_axis s (sp_unit s).

Definition set_unit (s : Spectrum) (u : string) : Spectrum :=
  mkSpectrum u (sp_axis s) (sp_flux s) (sp_err s).
Definition set_flux (s : Spectrum) (fl : list R) : Spectrum :=
  mkSpectrum (sp_unit s) (sp_axis s) fl (sp_err s).
Definition set_err (s : Spectrum) (er : list R) : Spectrum :=
  mkSpectrum (sp_unit s) (sp_axis s) (sp_flux s) er.

(** Spectra are objects: the store maps references to their current
    state, and [spec.copy()] allocates. *)
Definition loc : Type := nat.
Definition heap : Type := list Spectrum.

Definition empty_spectrum : Spectrum :=
  mkSpectrum "" (fun _ => []) [] [].

Definition deref (h : heap) (l : loc) : Spectrum := nth l h empty_spectrum.

Fixpoint store (h : heap) (l : loc) (s : Spectrum) : heap :=
  match h, l with
  | [], _ => []
  | _ :: h', O => s :: h'
  | t :: h', S l' => t :: store h' l' s
  end.

Definition copy (h : heap) (l : loc) : loc * heap :=
  (List.length h, (h ++ [deref h l])%list).

(* ================================================================== *)
(** * The class Extinction *)
(* ================================================================== *)

(** An argument of the constructor: a value or a function object. *)
Inductive pyobj : Type :=
| OVal (v : pyval)
| OFun (g : pyval -> result npval).

Definition callable (o : pyobj) : bool :=
  match o with OFun _ => true | OVal _ => false end.

Definition is_None (o : pyobj) : bool :=
  match o with OVal PNone => true | _ => false end.

(** The pipeline buffer [{'in': [...], 'out': [...]}]. *)
Record plbuffer : Type := mkBuffer {
  pl_in : list (string * loc);
  pl_out : list loc
}.

(** An instance.  [klass_f] is the method [f] that the class of the
    instance defines, bound to the shape parameters of the instance;
    [attr_f] is the instance attribute [f] when [__init__] has set one. *)
Record Extinction : Type := mkExtinction {
  klass_f : pyval -> result npval;
  attr_f : option pyobj;
  A0 : npval;
  _plbuffer : option plbuffer
}.

Definition set_A0 (self : Extinction) (a : npval) : Extinction :=
  mkExtinction (klass_f self) (attr_f self) a (_plbuffer self).

Definition set_plbuffer (self : Extinction) (b : option plbuffer) : Extinction :=
  mkExtinction (klass_f self) (attr_f self) (A0 self) b.

(** [Extinction.f]: the base class is abstract. *)
Definition Extinction_f (lamb : pyval) : result npval :=
  Raise NotImplementedError.

(** [Extinction.__init__(self, f=None, A0=1)], run on an instance of a
    class whose method [f] is [cls_f]. *)
Definition Extinction__init__ (cls_f : pyval -> result npval)
    (f : pyobj) (A0 : npval) : result Extinction :=
  attr <- (if negb (is_None f) then
             if negb (callable f) then Ok (Some f)
             else Raise (ValueError "function must be a callable")
           else Ok None) ;;
  Ok (mkExtinction cls_f attr A0 None).

(** The attribute lookup [self.f] followed by the call. *)
Definition self_f (self : Extinction) (lamb : pyval) : result npval :=
  match attr_f self with
  | None => klass_f self lamb
  | Some (OFun g) => g lamb
  | Some (OVal _) => Raise TypeError
  end.

(** [Extinction.__call__]. *)
Definition call (self : Extinction) (lamb : pyval) : result npval :=
  fv <- self_f self lamb ;;
  np_mul (A0 self) fv.

(** The band table [bandwl] of [astropysics.phot] maps band names to
    wavelengths; subscripting it with anything else is a [KeyError]. *)
Definition band_lookup (bandwl : string -> option R) (b : atom) : result pyval :=
  match b with
  | AStr s =>
      match bandwl s with
      | Some wl => Ok (PNum wl)
      | None => Raise KeyError
      end
  | ANum _ => Raise KeyError
  end.

(** [Extinction.correctColor]. *)
Definition correctColor (bandwl : string -> option R) (self : Extinction)
    (colors : npval) (bands : pyval) : result npval :=
  bs <- match bands with
        | PStr s =>
            unpack2 (map AStr
              (str_split "," (str_replace ")" "" (str_replace "E(" "" s))))
        | _ => l <- iter bands ;; unpack2 l
        end ;;
  let (b1, b2) := bs : atom * atom in
  wl1 <- (if atom_is_str b1 then band_lookup bandwl b1 else Ok (atom_val b1)) ;;
  wl2 <- (if atom_is_str b1 then band_lookup bandwl b2 else Ok (atom_val b2)) ;;
  e1 <- call self wl1 ;;
  d <- np_sub colors e1 ;;
  e2 <- call self wl2 ;;
  np_add d e2.

(** [Extinction.correctSpectrum]; the result is the returned reference
    and the store as the call leaves it. *)
Definition correctSpectrum (self : Extinction) (h : heap) (spec : loc)
    (newspec : bool) : result loc * heap :=
  let (spec, h) := if newspec then copy h spec else (spec, h) in
  let oldunit := sp_unit (deref h spec) in
  let h := store h spec (set_unit (deref h spec) "wavelength-angstrom") in
  match call self (PArr (sp_x (deref h spec))) with
  | Raise e => (Raise e, h)
  | Ok ext =>
      let corr := np_map pow10 (np_map (fun e => e / 2.5) ext) in
      match np_imul (sp_flux (deref h spec)) corr with
      | Raise e => (Raise e, h)
      | Ok fl =>
          let h := store h spec (set_flux (deref h spec) fl) in
          match np_imul (sp_err (deref h spec)) corr with
          | Raise e => (Raise e, h)
          | Ok er =>
              let h := store h spec (set_err (deref h spec) er) in
              let h := store h spec (set_unit (deref h spec) oldunit) in
              (Ok spec, h)
          end
      end
  end.

(** The table [Extinction.__balmerratios]: case-B ratio and the two
    wavelengths of each transition pair. *)
Definition __balmerratios (k : string) : option (R * R * R) :=
  if String.eqb k "Hab" then Some (2.86, 6562.82, 4861.33)
  else if String.eqb k "Hag" then Some (6.16, 6562.82, 4340.46)
  else if String.eqb k "Had" then Some (11.21, 6562.82, 4101.74)
  else if String.eqb k "Hae" then Some (18.16, 6562.82, 3970.07)
  else if String.eqb k "Hbg" then Some (2.15, 4861.33, 4340.46)
  else if String.eqb k "Hbd" then Some (3.91, 4861.33, 4101.74)
  else if String.eqb k "Hbe" then Some (6.33, 4861.33, 3970.07)
  else if String.eqb k "Hgd" then Some (1.82, 4340.46, 4101.74)
  else if String.eqb k "Hge" then Some (2.95, 4340.46, 3970.07)
  else if String.eqb k "Hde" then Some (1.62, 4101.74, 3970.07)
  else None.

(** Subscripting the table. *)
Definition balmer_lookup (k : atom) : result (R * R * R) :=
  match k with
  | AStr s =>
      match __balmerratios s with
      | Some t => Ok t
      | None => Raise KeyError
      end
  | ANum _ => Raise KeyError
  end.

(** The loop that collects the table entries of a sequence of keys. *)
Fixpoint balmer_collect (es : list atom) : result (list R * list R * list R) :=
  match es with
  | [] => Ok ([], [], [])
  | e :: es' =>
      t <- balmer_lookup e ;;
      let '(r0, l1, l2) := t in
      rest <- balmer_collect es' ;;
      let '(R0, lambda1, lambda2) := rest in
      Ok (r0 :: R0, l1 :: lambda1, l2 :: lambda2)
  end.

(** The local variables [R], [R0], [lambda1], [lambda2] after the first
    statement of [computeA0FromFluxRatio]; [R] may be left unbound. *)
Record ratio_args : Type := mkArgs {
  arg_R : option pyval;
  arg_R0 : pyval;
  arg_lambda1 : pyval;
  arg_lambda2 : pyval
}.

(** The first statement of [computeA0FromFluxRatio]: the three-way branch
    on the form of [expected]. *)
Definition resolve_expected (measured expected lambda1 lambda2 : pyval)
  : result ratio_args :=
  match expected with
  | PStr k =>
      t <- balmer_lookup (AStr k) ;;
      let '(r0, l1, l2) := t in
      Ok (mkArgs (Some measured) (PNum r0) (PNum l1) (PNum l2))
  | _ =>
      e0 <- index0 expected ;;
      if atom_is_str e0 then
        es <- iter expected ;;
        if negb (forallb atom_is_str es) then
          Raise (ValueError "expected must be only transitions or only numerical")
        else
          t <- balmer_collect es ;;
          let '(R0, l1, l2) := t in
          Ok (mkArgs None (PArr R0) (PArr l1) (PArr l2))
      else
        t1 <- truth lambda1 ;;
        t <- (if t1 then truth lambda2 else Ok false) ;;
        if t then
          Ok (mkArgs (Some (np_array measured)) (np_array expected)
                     (np_array lambda1) (np_array lambda2))
        else
          Raise (ValueError "need to provide wavelengths if not specifying transitions")
  end.

(** The expression
    [-2.5*np.log10(R/R0)/(self.f(lambda1)-self.f(lambda2))]. *)
Definition raw_A0 (self : Extinction) (a : ratio_args) : result npval :=
  R <- match arg_R a with
       | Some v => Ok v
       | None => Raise (UnboundLocalError "R")
       end ;;
  Rn <- numeric R ;;
  R0n <- numeric (arg_R0 a) ;;
  q <- np_div Rn R0n ;;
  let num := np_map (fun t => -2.5 * t) (np_map log10 q) in
  f1 <- self_f self (arg_lambda1 a) ;;
  f2 <- self_f self (arg_lambda2 a) ;;
  d <- np_sub f1 f2 ;;
  np_div num d.

(** [filterfunc], with its default [lambda x: x]. *)
Definition apply_filter (filterfunc : option (npval -> result npval))
    (a : npval) : result npval :=
  match filterfunc with
  | None => Ok a
  | Some g => g a
  end.

(** [Extinction.computeA0FromFluxRatio]; the result is the returned pair
    and the law as the call leaves it. *)
Definition computeA0FromFluxRatio (self : Extinction)
    (measured expected lambda1 lambda2 : pyval)
    (filterfunc : option (npval -> result npval))
  : result (npval * R) * Extinction :=
  match (a <- resolve_expected measured expected lambda1 lambda2 ;;
         raw <- raw_A0 self a ;;
         apply_filter filterfunc raw) with
  | Raise e => (Raise e, self)
  | Ok A0 => (Ok (A0, np_std A0), set_A0 self A0)
  end.

(* ------------------------------------------------------------------ *)
(** ** The pipeline methods *)

(** What a pipeline feeds: a [Spectrum] object or anything else. *)
Inductive pldata : Type :=
| DSpectrum (l : loc)
| DOther (v : pyval).

(** The lazy creation of the buffer that opens each pipeline method. *)
Definition ensure_plbuffer (self : Extinction) : Extinction * plbuffer :=
  match _plbuffer self with
  | Some b => (self, b)
  | None =>
      let b := mkBuffer [] [] in
      (set_plbuffer self (Some b), b)
  end.

(** [Extinction._plFeed]. *)
Definition _plFeed (self : Extinction) (data : pldata) (src : pyval)
  : result unit * Extinction :=
  let (self, b) := ensure_plbuffer self in
  match data with
  | DSpectrum l =>
      (Ok tt,
       set_plbuffer self (Some (mkBuffer (pl_in b ++ [("spec", l)])%list (pl_out b))))
  | DOther _ =>
      (Raise (PipelineError "unrecognized Extinction correction input data"), self)
  end.

(** The names that an instance of [Extinction] resolves: its instance
    attributes, the methods of the class and the four pipeline operations
    that [PipelineElement] declares. *)
Definition Extinction_attributes : list string :=
  ["f"; "A0"; "_plbuffer"; "__init__"; "__call__"; "correctPhotometry";
   "Alambda"; "correctColor"; "correctSpectrum"; "correctFlux";
   "computeA0FromFluxRatio"; "_plFeed"; "_plProcess"; "_plExtract";
   "_plClear"].

Definition getattr (name : string) : result unit :=
  if existsb (String.eqb name) Extinction_attributes then Ok tt
  else Raise (AttributeError name).

(** The handler [self.insert(0,spec(type,data))] of [_plProcess]: the
    attribute lookup comes first; the module binds no global [spec]. *)
Definition process_handler : result unit :=
  _ <- getattr "insert" ;;
  Raise (NameError "spec").

(** [Extinction._plProcess]; the result is the outcome, the law and the
    store as the call leaves them. *)
Definition _plProcess (self : Extinction) (h : heap)
  : result unit * Extinction * heap :=
  let (self, b) := ensure_plbuffer self in
  match pl_in b with
  | [] => (Raise IndexError, self, h)
  | (type, data) :: rest =>
      let b := mkBuffer rest (pl_out b) in
      let self := set_plbuffer self (Some b) in
      let '(body, self, h) :=
        if String.eqb type "spec" then
          match correctSpectrum self h data true with
          | (Ok newspec, h') =>
              (Ok tt,
               set_plbuffer self
                 (Some (mkBuffer (pl_in b) (pl_out b ++ [newspec])%list)),
               h')
          | (Raise e, h') => (Raise e, self, h')
          end
        else (Raise AssertionError, self, h) in
      match body with
      | Ok _ => (Ok tt, self, h)
      | Raise _ => (process_handler, self, h)
      end
  end.

(** CPython 2 orders objects of different types by type, numbers before
    everything else: a list is never less than an integer. *)
Definition py2_list_lt_int {A : Type} (l : list A) (n : Z) : bool := false.

(** [len] of a [bool]. *)
Definition len_bool (b : bool) : result nat := Raise TypeError.

(** [Extinction._plExtract]: the test is [len(out < 1)]. *)
Definition _plExtract (self : Extinction)
  : result (option loc) * Extinction :=
  let (self, b) := ensure_plbuffer self in
  match len_bool (py2_list_lt_int (pl_out b) 1) with
  | Raise e => (Raise e, self)
  | Ok n =>
      if negb (Nat.eqb n 0) then (Ok None, self)
      else match pl_out b with
           | [] => (Raise IndexError, self)
           | x :: rest =>
               (Ok (Some x), set_plbuffer self (Some (mkBuffer (pl_in b) rest)))
           end
  end.

(** [Extinction._plClear]. *)
Definition _plClear (self : Extinction) : Extinction :=
  set_plbuffer self None.

(* ================================================================== *)
(** * Laws normalised by E(B-V) *)
(* ================================================================== *)

(** An instance of a subclass of [_EBmVExtinction]: the attributes of
    [Extinction] and [Rv]. *)
Record EBmVExtinction : Type := mkEBmV {
  base : Extinction;
  Rv : R
}.

Section EBmV.

(** The class attribute [__lambdaV = bandwl['V']]. *)
Variable lambdaV : R.

(** The property [EBmV]: getter and setter. *)
Definition _getEBmV (self : EBmVExtinction) : result npval :=
  fv <- self_f (base self) (PNum lambdaV) ;;
  t <- np_mul (A0 (base self)) fv ;;
  np_div t (NScalar (Rv self)).

Definition _setEBmV (self : EBmVExtinction) (val : npval)
  : result EBmVExtinction :=
  Av <- np_mul (NScalar (Rv self)) val ;;
  fv <- self_f (base self) (PNum lambdaV) ;;
  a <- np_div Av fv ;;
  Ok (mkEBmV (set_A0 (base self) a) (Rv self)).

(** [_EBmVExtinction.__init__(self, EBmV=1, Rv=3.1)], run on an instance
    of a class whose method [f] is [cls_f]. *)
Definition EBmVExtinction__init__ (cls_f : pyval -> result npval)
    (EBmV : npval) (Rv : R) : result EBmVExtinction :=
  b <- Extinction__init__ cls_f (OVal PNone) (NScalar 1) ;;
  _setEBmV (mkEBmV b Rv) EBmV.

End EBmV.

(** [_EBmVExtinction.f]. *)
Definition EBmVExtinction_f (lamb : pyval) : result npval :=
  Raise NotImplementedError.

(* ------------------------------------------------------------------ *)
(** ** The Fitzpatrick-Massa form *)

Section FM.

Variables C1 C2 C3 C4 x0 gamma Rv : R.

(** [C1+C2*x+C3*D] with [D = xsq*((xsq-x0*x0)**2+xsq*gamma*gamma)**-2]. *)
Definition FM_base (x : R) : R :=
  let xsq := x * x in
  let D := xsq * / (((xsq - x0 * x0) ^ 2 + xsq * gamma * gamma) ^ 2) in
  C1 + C2 * x + C3 * D.

(** [C4*(0.5392*(x-5.9)**2+0.05644*(x-5.9)**3)]. *)
Definition FM_far_uv (x : R) : R :=
  C4 * (0.5392 * (x - 5.9) ^ 2 + 0.05644 * (x - 5.9) ^ 3).

(** [FMExtinction.f]. *)
Definition FMExtinction_f (lamb : pyval) : result npval :=
  arr <- numeric (np_array lamb) ;;
  x <- np_div (NScalar 1e4) arr ;;
  match x with
  | NScalar x | NZeroD x =>
      let FMf := FM_base x in
      let FMf := if Rgeb x 5.9 then FMf + FM_far_uv x else FMf in
      Ok (NScalar (FMf + Rv))
  | NArray x =>
      let FMf := map FM_base x in
      let C4m := map (fun t => Rgeb t 5.9) x in
      let FMf :=
        scatter C4m
          (zipWith Rplus (compress C4m FMf) (map FM_far_uv (compress C4m x)))
          FMf in
      Ok (NArray (map (fun v => v + Rv) FMf))
  end.

End FM.

(** [FMExtinction.__init__]. *)
Definition FMExtinction__init__ (lambdaV : R)
    (C1 C2 C3 C4 x0 gamma : R) (EBmV : npval) (Rv : R)
  : result EBmVExtinction :=
  EBmVExtinction__init__ lambdaV
    (FMExtinction_f C1 C2 C3 C4 x0 gamma Rv) EBmV Rv.

(** [LMCExtinction.__init__] and [SMCExtinction.__init__]. *)
Definition LMCExtinction__init__ (lambdaV : R) (EBmV : npval) (Rv : R)
  : result EBmVExtinction :=
  FMExtinction__init__ lambdaV (-0.890) 0.998 2.719 0.400 4.579 0.934 EBmV Rv.

Definition SMCExtinction__init__ (lambdaV : R) (EBmV : npval) (Rv : R)
  : result EBmVExtinction :=
  FMExtinction__init__ lambdaV (-4.959) 2.264 0.389 0.461 4.6 1 EBmV Rv.

(* ------------------------------------------------------------------ *)
(** ** The law of Cardelli, Clayton and Mathis *)

Section Cardelli.

Variable Rv : R.

(** The contents of the arrays that [np.ndarray(x.shape, x.dtype)]
    allocates are not initialised: position [i] of [a] holds
    [junk_a i], and likewise for [b]. *)
Variables junk_a junk_b : nat -> R.

Definition ccm_range_error : exn :=
  ValueError "some wavelengths outside CCM 89 extinction curve range".

Definition between (lo hi : R) (x : list R) : list bool :=
  map (fun t => Rleb lo t && Rleb t hi) x.

Definition ccm_nuv_a (t : R) : R :=
  1.752 - 0.316 * t - 0.104 / ((t - 4.67) ^ 2 + 0.341).
Definition ccm_nuv_b (t : R) : R :=
  -3.09 + 1.825 * t + 1.206 / ((t - 4.62) ^ 2 + 0.263).

(** The masked assignments to [a], in the order of the source. *)
Definition ccm_fill_a (x : list R) : list R :=
  let a := map junk_a (seq 0 (List.length x)) in
  let irs := between 0.3 1.1 x in
  let opts := between 1.1 3.3 x in
  let nuv1s := between 3.3 5.9 x in
  let nuv2s := between 5.9 8 x in
  let fuvs := between 8 10 x in
  let a := scatter irs
             (map (fun t => 0.574 * Rpower t 1.61) (compress irs x)) a in
  let a := scatter opts
             (map (fun t => polyval [0.32999; -0.7753; 0.01979; 0.72085;
                                     -0.02427; -0.50447; 0.17699; 1]
                                    (t - 1.82))
                  (compress opts x)) a in
  let y := map (fun t => t - 5.9) (compress nuv1s x) in
  let Fa := map (fun y => -0.04473 * y ^ 2 - 0.009779 * y ^ 3) y in
  let a := scatter nuv1s
             (zipWith Rplus (map ccm_nuv_a (compress nuv1s x)) Fa) a in
  let a := scatter nuv2s (map ccm_nuv_a (compress nuv2s x)) a in
  let a := scatter fuvs
             (map (fun t => polyval [-0.070; 0.137; -0.628; -1.073] (t - 8))
                  (compress fuvs x)) a in
  a.

(** The masked assignments to [b]. *)
Definition ccm_fill_b (x : list R) : list R :=
  let b := map junk_b (seq 0 (List.length x)) in
  let irs := between 0.3 1.1 x in
  let opts := between 1.1 3.3 x in
  let nuv1s := between 3.3 5.9 x in
  let nuv2s := between 5.9 8 x in
  let fuvs := between 8 10 x in
  let b := scatter irs
             (map (fun t => -0.527 * Rpower t 1.61) (compress irs x)) b in
  let b := scatter opts
             (map (fun t => polyval [-2.09002; 5.3026; -0.62251; -5.38434;
                                     1.07233; 2.28305; 1.41338; 0]
                                    (t - 1.82))
                  (compress opts x)) b in
  let y := map (fun t => t - 5.9) (compress nuv1s x) in
  let Fb := map (fun y => -0.2130 * y ^ 2 - 0.1207 * y ^ 3) y in
  let b := scatter nuv1s
             (zipWith Rplus (map ccm_nuv_b (compress nuv1s x)) Fb) b in
  let b := scatter nuv2s (map ccm_nuv_b (compress nuv2s x)) b in
  let b := scatter fuvs
             (map (fun t => polyval [0.374; -0.42; 4.257; 13.67] (t - 8))
                  (compress fuvs x)) b in
  b.

(** [CardelliExtinction.f]. *)
Definition CardelliExtinction_f (lamb : pyval) : result npval :=
  let scalar := np_isscalar lamb in
  arr <- numeric (np_atleast_1d lamb) ;;
  xv <- np_div (NScalar 1e4) arr ;;
  match xv with
  | NScalar _ | NZeroD _ => Raise TypeError
  | NArray x =>
      if existsb (fun t => Rltb t 0.3 || Rltb 10 t) x then
        Raise ccm_range_error
      else
        let a := ccm_fill_a x in
        let b := ccm_fill_b x in
        let AloAv := zipWith Rplus a (map (fun t => t / Rv) b) in
        if scalar then
          match AloAv with
          | v :: _ => Ok (NScalar v)
          | [] => Raise IndexError
          end
        else Ok (NArray AloAv)
  end.

End Cardelli.

(* ================================================================== *)
(** * The curves that the masked code computes *)
(* ================================================================== *)

(** The value of [FMExtinction.f] at one wavelength. *)
Definition FM_shape (C1 C2 C3 C4 x0 gamma Rv : R) (lamb : R) : R :=
  let x := 1e4 / lamb in
  if Rgeb x 5.9
  then FM_base C1 C2 C3 x0 gamma x + FM_far_uv C4 x + Rv
  else FM_base C1 C2 C3 x0 gamma x + Rv.

(** The curves [a(x)] and [b(x)] of the CCM law on [0.3 <= x <= 10]: where
    two regimes share a boundary, the later assignment of the source
    decides. *)
Definition ccm_a (x : R) : R :=
  if Rleb 8 x then polyval [-0.070; 0.137; -0.628; -1.073] (x - 8)
  else if Rleb 5.9 x then ccm_nuv_a x
  else if Rleb 3.3 x then
    ccm_nuv_a x + (-0.04473 * (x - 5.9) ^ 2 - 0.009779 * (x - 5.9) ^ 3)
  else if Rleb 1.1 x then
    polyval [0.32999; -0.7753; 0.01979; 0.72085;
             -0.02427; -0.50447; 0.17699; 1] (x - 1.82)
  else 0.574 * Rpower x 1.61.

Definition ccm_b (x : R) : R :=
  if Rleb 8 x then polyval [0.374; -0.42; 4.257; 13.67] (x - 8)
  else if Rleb 5.9 x then ccm_nuv_b x
  else if Rleb 3.3 x then
    ccm_nuv_b x + (-0.2130 * (x - 5.9) ^ 2 - 0.1207 * (x - 5.9) ^ 3)
  else if Rleb 1.1 x then
    polyval [-2.09002; 5.3026; -0.62251; -5.38434;
             1.07233; 2.28305; 1.41338; 0] (x - 1.82)
  else -0.527 * Rpower x 1.61.

Definition ccm_shape (Rv : R) (lamb : R) : R :=
  ccm_a (1e4 / lamb) + ccm_b (1e4 / lamb) / Rv.

(** The wavelength is inside the range of the CCM law. *)
Definition ccm_in_range (lamb : R) : Prop :=
  0.3 <= 1e4 / lamb <= 10.

(** One term of the calibration:
    [-2.5*log10(r/r0)/(f1-f2)]. *)
Definition A0_term (r r0 f1 f2 : R) : R :=
  -2.5 * log10 (r / r0) / (f1 - f2).

(** The flux correction factor applied to one sample. *)
Definition deredden (v e : R) : R := v * pow10 (e / 2.5).

(* ================================================================== *)
(** * Sample objects *)
(* ================================================================== *)

(** The law that [Extinction()] builds. *)
Definition abstract_law : Extinction :=
  mkExtinction Extinction_f None (NScalar 1) None.

(** A law whose shape is the inverse wavelength in microns. *)
Definition inverse_f (lamb : pyval) : result npval :=
  n <- numeric lamb ;;
  np_div (NScalar 1e4) n.

Definition inverse_law (A0 : npval) : Extinction :=
  mkExtinction inverse_f None A0 None.

(** A band table with the two bands of the colour B-V. *)
Definition sample_bandwl (b : string) : option R :=
  if String.eqb b "B" then Some 4400
  else if String.eqb b "V" then Some 5500
  else None.

(** A spectrum of two samples. *)
Definition sample_spectrum : Spectrum :=
  mkSpectrum "wavelength-angstrom" (fun _ => [5000; 10000]) [1; 2] [0.5; 0.25].

(* ================================================================== *)
(** * Further methods of Extinction *)
(* ================================================================== *)

(** [Extinction.correctPhotometry]. *)
Definition correctPhotometry (bandwl : string -> option R) (self : Extinction)
    (mags : npval) (band : pyval) : result npval :=
  wl <- match band with
        | PStr s => band_lookup bandwl (AStr s)
        | _ => Ok band
        end ;;
  e <- call self wl ;;
  np_sub mags e.

(** The table [Extinction.__builtinlines]. *)
Definition __builtinlines (k : string) : option R :=
  if String.eqb k "Ha" then Some 6562.82
  else if String.eqb k "Hb" then Some 4861.33
  else if String.eqb k "Hg" then Some 4340.46
  else if String.eqb k "Hd" then Some 4101.74
  else if String.eqb k "He" then Some 3970.07
  else None.

(** [Extinction.correctFlux]: a string that is not a key of the table is
    left as it is. *)
Definition correctFlux (self : Extinction) (flux : npval) (lamb : pyval)
  : result npval :=
  let lamb :=
    match lamb with
    | PStr s =>
        match __builtinlines s with
        | Some wl => PNum wl
        | None => lamb
        end
    | _ => lamb
    end in
  e <- call self lamb ;;
  np_mul flux (np_map pow10 (np_map (fun t => t / 2.5) e)).

(* ------------------------------------------------------------------ *)
(** ** The law of Calzetti et al. *)

(** The class attribute [_poly = np.poly1d((0.011,-0.198,1.509,-2.156))]. *)
Definition CalzettiExtinction_poly : list R := [0.011; -0.198; 1.509; -2.156].

(** [CalzettiExtinction.f]. *)
Definition CalzettiExtinction_f (lamb : pyval) : result npval :=
  n <- numeric lamb ;;
  x <- np_div (NScalar 1e4) n ;;
  Ok (np_map (fun t => (-2.5 / ln 10) * t)
             (np_map (polyval CalzettiExtinction_poly) x)).

(** [CalzettiExtinction.__init__(self, A0=1)]. *)
Definition CalzettiExtinction__init__ (A0 : npval) : result Extinction :=
  Extinction__init__ CalzettiExtinction_f (OVal PNone) A0.

(** The polynomial [Q(x)] of the docstring of [CalzettiExtinction]. *)
Definition Calzetti_Q (x : R) : R :=
  -2.156 + 1.509 * x - 0.198 * x ^ 2 + 0.011 * x ^ 3.

(* ------------------------------------------------------------------ *)
(** ** Driving the pipeline methods *)

(** One call of a pipeline method by a driver. *)
Inductive plop : Type :=
| OpFeed (data : pldata)
| OpProcess
| OpExtract.

(** The law and the store after one call, whatever its outcome. *)
Definition plstep (st : Extinction * heap) (op : plop) : Extinction * heap :=
  let (self, h) := st in
  match op with
  | OpFeed data => (snd (_plFeed self data PNone), h)
  | OpProcess =>
      let '(_, self', h') := _plProcess self h in (self', h')
  | OpExtract => (snd (_plExtract self), h)
  end.

Definition plrun (st : Extinction * heap) (ops : list plop)
  : Extinction * heap :=
  fold_left plstep ops st.

(** The two queues of an adapter; a missing buffer holds nothing. *)
Definition pending (self : Extinction) : list (string * loc) :=
  match _plbuffer self with
  | Some b => pl_in b
  | None => []
  end.

Definition ready (self : Extinction) : list loc :=
  match _plbuffer self with
  | Some b => pl_out b
  | None => []
  end.

(** The law that [CalzettiExtinction()] builds. *)
Definition calzetti_law (A0 : npval) : Extinction :=
  mkExtinction CalzettiExtinction_f None A0 None.

(** A spectrum whose axis is stored in nanometres. *)
Definition sample_spectrum_nm : Spectrum :=
  mkSpectrum "wavelength-nm"
    (fun u => if String.eqb u "wavelength-angstrom"
              then [5000; 10000] else [500; 1000])
    [1; 2] [0.5; 0.25].

(** Creating a [CardelliExtinction], which inherits
    [_EBmVExtinction.__init__]. *)
Definition CardelliExtinction__init__ (lambdaV : R) (junk_a junk_b : nat -> R)
    (EBmV : npval) (Rv : R) : result EBmVExtinction :=
  EBmVExtinction__init__ lambdaV (CardelliExtinction_f Rv junk_a junk_b) EBmV Rv.

(* ================================================================== *)
(** * The deprecated function extinction_correction *)
(* ================================================================== *)

(** The argument [lineflux]: [None], [False] or a numeric value. *)
Inductive lineflux_arg : Type :=
| LNone
| LFalse
| LFlux (v : npval).

(** The argument [linewl]: a band name or a numeric value. *)
Inductive linewl_arg : Type :=
| WName (s : string)
| WValue (v : npval).

Definition np_to_py (v : npval) : pyval :=
  match v with
  | NScalar r => PNum r
  | NZeroD r => PZeroD r
  | NArray l => PArr l
  end.

(** [np.atleast_1d] of a numeric value. *)
Definition atleast_1d_num (v : npval) : list R :=
  match v with
  | NScalar r | NZeroD r => [r]
  | NArray l => l
  end.

(** One of the three length adjustments of [extinction_correction]: an
    array of size one is repeated [n] times, any other size must be
    [n]. *)
Definition stretch {A : Type} (n : nat) (xs : list A) (msg : string)
  : result (list A) :=
  match xs with
  | [x] => Ok (repeat x n)
  | _ => if Nat.eqb (List.length xs) n then Ok xs else Raise (ValueError msg)
  end.

(** [eo.correctFlux(lineflux, linewl)] as [extinction_correction] calls it
    for the Magellanic laws: [False] multiplies as the integer 0, and
    [None] cannot be multiplied once the factor is computed. *)
Definition correctFlux_of_args (self : Extinction) (lineflux : lineflux_arg)
    (linewl : linewl_arg) : result npval :=
  let lamb :=
    match linewl with
    | WName s => PStr s
    | WValue v => np_to_py v
    end in
  match lineflux with
  | LFlux v => correctFlux self v lamb
  | LFalse => correctFlux self (NScalar 0) lamb
  | LNone => _ <- correctFlux self (NScalar 0) lamb ;; Raise TypeError
  end.

(** [~np.isnan(lineflux)] and [lineflux[magi]]. *)
Definition is_flux (v : option R) : bool :=
  match v with Some _ => true | None => false end.

Fixpoint fluxes (l : list (option R)) : list R :=
  match l with
  | [] => []
  | Some v :: l' => v :: fluxes l'
  | None :: l' => fluxes l'
  end.

(** [extinction_correction(lineflux, linewl, EBmV, Rv=3.1, exttype='MW')].
    [bandwl] is the band table of [astropysics.phot] and [lambdaV] its
    entry for V, which the Magellanic laws use.  A NaN in [lineflux] is
    [None]; a flux that is not NaN is corrected through its magnitude, a
    NaN is replaced by [Al].  The [DeprecationWarning] that the function
    issues first has no effect on the result. *)
Definition extinction_correction (bandwl : string -> option R) (lambdaV : R)
    (lineflux : lineflux_arg) (linewl : linewl_arg) (EBmV : npval) (Rv : R)
    (exttype : string) : result npval :=
  if String.eqb exttype "LMC" then
    eo <- LMCExtinction__init__ lambdaV EBmV Rv ;;
    correctFlux_of_args (base eo) lineflux linewl
  else if String.eqb exttype "SMC" then
    eo <- SMCExtinction__init__ lambdaV EBmV Rv ;;
    correctFlux_of_args (base eo) lineflux linewl
  else
    linewl <- match linewl with
              | WName s =>
                  match bandwl s with
                  | Some wl => Ok [wl]
                  | None => Raise KeyError
                  end
              | WValue v => Ok (atleast_1d_num v)
              end ;;
    let lineflux :=
      match lineflux with
      | LNone | LFalse => [None]
      | LFlux v => map Some (atleast_1d_num v)
      end in
    let EBmV := atleast_1d_num EBmV in
    let n := Nat.max (List.length lineflux)
                     (Nat.max (List.length linewl) (List.length EBmV)) in
    args <- (if Nat.eqb n 1 then Ok (lineflux, linewl, EBmV)
             else
               lineflux <- stretch n lineflux "lineflux is incorrect length" ;;
               linewl <- stretch n linewl "linewl is incorrect length" ;;
               EBmV <- stretch n EBmV "EBmV is incorrect length" ;;
               Ok (lineflux, linewl, EBmV)) ;;
    let '(lineflux, linewl, EBmV) := args in
    let x := map (Rdiv 1e4) linewl in
    if existsb (fun t => Rltb t 0.3 || Rltb 10 t) x then
      Raise ccm_range_error
    else
      let a := ccm_fill_a (fun i => nth i x 0) x in
      let b := ccm_fill_b (fun i => nth i x 0) x in
      let AloAv := zipWith Rplus a (map (fun t => t / Rv) b) in
      Al <- broadcast Rmult (map (fun t => t * Rv) AloAv) EBmV ;;
      let magi := map is_flux lineflux in
      realmag <- broadcast Rminus
                   (map (fun v => -2.5 * log10 v) (fluxes lineflux))
                   (compress magi Al) ;;
      let finalval :=
        scatter magi (map (fun m => pow10 (m / -2.5)) realmag) Al in
      if Nat.eqb n 1 then
        match finalval with
        | v :: _ => Ok (NScalar v)
        | [] => Raise IndexError
        end
      else Ok (NArray finalval).

(* ================================================================== *)
(** * Julian dates and epochs *)
(* ================================================================== *)

(** [besselian_epoch_to_jd], [jd_to_besselian_epoch], [jd_to_epoch] and
    [epoch_to_jd], on one date. *)
Definition besselian_epoch_to_jd (bepoch : R) : R :=
  (bepoch - 1900) * 365.242198781 + 2415020.31352.

Definition jd_to_besselian_epoch (jd : R) : R :=
  1900 + (jd - 2415020.31352) / 365.242198781.

Definition jd_to_epoch (jd : R) : R :=
  2000.0 + (jd - 2451545.0) / 365.25.

Definition epoch_to_jd (jepoch : R) : R :=
  (jepoch - 2000) * 365.25 + 2451545.0.

(** An entry of the sequence form of [gtime]: a Python [int] (a machine
    integer of 64 bits) or a float. *)
Inductive tnum : Type :=
| TInt (z : Z)
| TFloat (r : R).

(** Arithmetic of the element type [int64] wraps around. *)
Definition wrap64 (z : Z) : Z :=
  ((z + 2 ^ 63) mod 2 ^ 64 - 2 ^ 63)%Z.

(** Truncation towards zero, as the conversion of a float to an integer
    does it. *)
Definition Rtrunc (r : R) : Z :=
  if Rle_dec 0 r then Int_part r else (- Int_part (- r))%Z.

(** [np.array(t, dtype='int64')] and [np.array(t, dtype=float)]. *)
Definition to_int64 (t : tnum) : Z :=
  match t with
  | TInt z => z
  | TFloat r => wrap64 (Rtrunc r)
  end.

Definition to_float (t : tnum) : R :=
  match t with
  | TInt z => IZR z
  | TFloat r => r
  end.

Definition zeros_like (t : tnum) : tnum :=
  match t with
  | TInt _ => TInt 0
  | TFloat _ => TFloat 0
  end.

(** The loop [while len(gtime) < 6: gtime.append(np.zeros_like(gtime[-1]))]. *)
Definition pad6 (gtime : list tnum) : list tnum :=
  (gtime ++ repeat (zeros_like (last gtime (TInt 0))) (6 - List.length gtime))%list.

(** The day number that [gregorian_to_jd] computes from [int64] values:
    [ly = int((month-14)/12)], then
    [day - 32075 + 1461*(yr+4800+ly)//4
     + 367*(month-2-ly*12)//12 - 3*((yr+4900+ly)//100)//4]. *)
Definition julian_day_number (yr month day : Z) : Z :=
  let ly := Z.quot (wrap64 (month - 14)) 12 in
  let jdn :=
    wrap64 (wrap64 (day - 32075)
            + wrap64 (wrap64 (1461 * wrap64 (wrap64 (yr + 4800) + ly)) / 4)) in
  wrap64 (jdn
          + wrap64 (wrap64 (wrap64 (367 * wrap64 (wrap64 (month - 2) - ly * 12)) / 12)
                    - wrap64 (wrap64 (3 * wrap64 (wrap64 (wrap64 (yr + 4900) + ly) / 100)) / 4))).

(** [res = jdn + (hr/24.0) + min/1440.0 + sec/86400.0 - 0.5]. *)
Definition julian_date (yr month day : Z) (hr min sec : R) : R :=
  IZR (julian_day_number yr month day) + hr / 24.0 + min / 1440.0
  + sec / 86400.0 - 0.5.

(** Modelled from the spec: the classes [date] and [datetime] of the
    Python library, of which [datetime] is a subclass of [date].  An
    object has its calendar fields and, for a [datetime] with a time zone,
    the offset from UTC that [utcoffset()] returns. *)
Inductive pykind : Type := KDate | KDatetime.

Record pydt : Type := mkDt {
  dt_kind : pykind;
  dt_year : Z;
  dt_month : Z;
  dt_day : Z;
  dt_hour : Z;
  dt_minute : Z;
  dt_second : Z;
  dt_microsecond : Z;
  dt_utcoffset : option R
}.

Definition isinstance_datetime (d : pydt) : bool :=
  match dt_kind d with KDatetime => true | KDate => false end.

Definition isinstance_date (d : pydt) : bool :=
  match dt_kind d with KDatetime | KDate => true end.

(** [datetime(year, month, day)]. *)
Definition datetime_ymd (y m d : Z) : pydt :=
  mkDt KDatetime y m d 0 0 0 0 None.

(** The argument [gtime]: one object, a list of objects, or a sequence of
    numbers. *)
Inductive gtime_arg : Type :=
| GObject (d : pydt)
| GObjects (ds : list pydt)
| GNumbers (l : list tnum).

(** The argument [utcoffset]: [None], hours, or the name of a time zone. *)
Inductive utcoffset_arg : Type :=
| UNone
| UHours (r : R)
| UName (s : string).

(** The fields that the loop over the [datetime] objects collects. *)
Definition gather (minus : pydt -> R -> pydt) (utcoffset : utcoffset_arg)
    (dt : pydt) : Z * Z * Z * R * R * R :=
  let dt := if isinstance_date dt
            then datetime_ymd (dt_year dt) (dt_month dt) (dt_day dt)
            else dt in
  let dt := match utcoffset with
            | UNone =>
                match dt_utcoffset dt with
                | Some off => minus dt off
                | None => dt
                end
            | _ => dt
            end in
  (dt_year dt, dt_month dt, dt_day dt, IZR (dt_hour dt), IZR (dt_minute dt),
   IZR (dt_second dt) + IZR (dt_microsecond dt) / 1e6).

(** [res -= np.array(utcoffset)/24.0] under [if np.any(utcoffset)]. *)
Definition shift_utc (utcoffset : utcoffset_arg) (res : R) : R :=
  match utcoffset with
  | UHours r => if Rnonzero r then res - r / 24.0 else res
  | _ => res
  end.

(** [gregorian_to_jd(gtime, utcoffset=None)].  [minus] is the subtraction
    of an offset from a [datetime].  With the name of a time zone the
    function calls [datetime] with the keyword [microseconds], which it
    does not have: a [TypeError] ([dateutil] is taken to be installed);
    [int()] of the array of months is a [TypeError] unless the array has
    one element. *)
Definition gregorian_to_jd (minus : pydt -> R -> pydt) (gtime : gtime_arg)
    (utcoffset : utcoffset_arg) : result npval :=
  let datetimes :=
    match gtime with
    | GObject d => Some [d]
    | GObjects ds => if forallb isinstance_datetime ds then Some ds else None
    | GNumbers [] => Some []
    | GNumbers _ => None
    end in
  let scalarout := match gtime with GObject _ => true | _ => false end in
  match datetimes with
  | None =>
      let size := match gtime with
                  | GObjects ds => List.length ds
                  | GNumbers l => List.length l
                  | GObject _ => 1%nat
                  end in
      if negb (Nat.leb 3 size && Nat.ltb size 7) then
        Raise (ValueError "gtime input sequence is invalid size")
      else
        match gtime with
        | GNumbers l =>
            match pad6 l with
            | [yr; month; day; hr; min; sec] =>
                match utcoffset with
                | UName _ => Raise TypeError
                | _ =>
                    Ok (NScalar
                          (shift_utc utcoffset
                             (julian_date (to_int64 yr) (to_int64 month)
                                          (to_int64 day) (to_float hr)
                                          (to_float min) (to_float sec))))
                end
            | _ => Raise (ValueError "too many values to unpack")
            end
        | _ => Raise TypeError
        end
  | Some ds =>
      match utcoffset with
      | UName _ => Raise TypeError
      | _ =>
          match map (gather minus utcoffset) ds with
          | [(yr, month, day, hr, min, sec)] =>
              let res := shift_utc utcoffset (julian_date yr month day hr min sec) in
              if scalarout then Ok (NScalar res) else Ok (NArray [res])
          | _ => Raise TypeError
          end
      end
  end.

(** The Gregorian calendar: leap years, the lengths of the months, and
    the day that follows a date. *)
Definition leap_year (y : Z) : bool :=
  ((y mod 4 =? 0) && (negb (y mod 100 =? 0) || (y mod 400 =? 0)))%Z.

Definition days_in_month (y m : Z) : Z :=
  if (m =? 2)%Z then (if leap_year y then 29 else 28)%Z
  else if ((m =? 4) || (m =? 6) || (m =? 9) || (m =? 11))%Z then 30%Z
  else 31%Z.

Definition valid_date (y m d : Z) : Prop :=
  (1 <= m <= 12 /\ 1 <= d <= days_in_month y m)%Z.

Definition next_day (y m d : Z) : Z * Z * Z :=
  if (d <? days_in_month y m)%Z then (y, m, (d + 1)%Z)
  else if (m <? 12)%Z then (y, (m + 1)%Z, 1%Z)
  else ((y + 1)%Z, 1%Z, 1%Z).

(** The day number without the wrap-around of [int64]. *)
Definition civil_day_number (yr month day : Z) : Z :=
  let ly := Z.quot (month - 14) 12 in
  (day - 32075 + 1461 * (yr + 4800 + ly) / 4
   + (367 * (month - 2 - ly * 12) / 12 - 3 * ((yr + 4900 + ly) / 100) / 4))%Z.

(* ================================================================== *)
(** * Properties *)
(* ================================================================== *)

(** ** Construction *)

Lemma uncallable_attr_TypeError (self : Extinction) (v : pyval) (lamb : pyval) :
  attr_f self = Some (OVal v) -> self_f self lamb = Raise TypeError.
Proof. unfold self_f; intros ->; reflexivity. Qed.

(** C10: the validation of the argument [f] by [Extinction.__init__] is
    inverted.  Every function object is rejected with the [ValueError]
    'function must be a callable'; every value that is neither [None] nor
    callable is accepted and stored as the attribute [f] of the instance,
    so that construction succeeds and the first evaluation of the law is a
    [TypeError]. *)
Theorem init_validation_inverted :
  forall (cls_f : pyval -> result npval) (a0 : npval),
    (forall g, Extinction__init__ cls_f (OFun g) a0
               = Raise (ValueError "function must be a callable")) /\
    (forall v, v <> PNone ->
       Extinction__init__ cls_f (OVal v) a0
       = Ok (mkExtinction cls_f (Some (OVal v)) a0 None) /\
       forall lamb,
         call (mkExtinction cls_f (Some (OVal v)) a0 None) lamb = Raise TypeError).
Proof.
  intros cls_f a0; split.
  - intros g; reflexivity.
  - intros v Hv; split.
    + destruct v; try reflexivity. now elim Hv.
    + intros lamb; reflexivity.
Qed.

Lemma init_validation_inverted_witness :
  PNum 3 <> PNone /\
  Extinction__init__ Extinction_f (OVal (PNum 3)) (NScalar 1)
  = Ok (mkExtinction Extinction_f (Some (OVal (PNum 3))) (NScalar 1) None).
Proof.
  assert (H : PNum 3 <> PNone) by discriminate.
  split; [exact H |].
  exact (proj1 (proj2 (init_validation_inverted Extinction_f (NScalar 1))
                      (PNum 3) H)).
Defined.

(** ** The pipeline methods *)

Lemma ensure_plbuffer_out (self : Extinction) :
  _plbuffer (fst (ensure_plbuffer self)) = Some (snd (ensure_plbuffer self)).
Proof. unfold ensure_plbuffer; destruct (_plbuffer self) eqn:E; simpl; auto. Qed.

Lemma ensure_plbuffer_fresh (self : Extinction) :
  _plbuffer self = None ->
  ensure_plbuffer self = (set_plbuffer self (Some (mkBuffer [] [])), mkBuffer [] []).
Proof. unfold ensure_plbuffer; intros ->; reflexivity. Qed.

(** C3: [_plExtract] tests [len(self._plbuffer['out']<1)]: the comparison
    of the ready queue with [1] is a [bool], and [len] of it is a
    [TypeError].  The call raises in every state of the adapter (freshly
    created, after [_plClear], with or without ready entries); it returns
    neither [None] nor an entry, and the queues keep their contents. *)
Theorem plExtract_raises :
  forall self : Extinction,
    _plExtract self = (Raise TypeError, fst (ensure_plbuffer self)) /\
    _plExtract (_plClear self)
    = (Raise TypeError, set_plbuffer self (Some (mkBuffer [] []))) /\
    _plExtract abstract_law
    = (Raise TypeError, set_plbuffer abstract_law (Some (mkBuffer [] []))).
Proof.
  intros self; split; [| split].
  - unfold _plExtract; destruct (ensure_plbuffer self); reflexivity.
  - reflexivity.
  - reflexivity.
Qed.

Lemma correctSpectrum_buffer_irrelevant (self : Extinction) (b : option plbuffer)
    (h : heap) (l : loc) (n : bool) :
  correctSpectrum (set_plbuffer self b) h l n = correctSpectrum self h l n.
Proof. reflexivity. Qed.

(** C6: when the correction of the dequeued spectrum raises, the handler
    of [_plProcess] evaluates [self.insert], which no [Extinction] has:
    the call ends with an [AttributeError], and the entry, which [pop(0)]
    has already removed, is not put back.  When the correction succeeds,
    the corrected copy is appended to the ready queue. *)
Theorem plProcess_outcomes :
  forall (self : Extinction) (h : heap) (data : loc)
         (rest : list (string * loc)) (out : list loc),
    _plbuffer self = Some (mkBuffer (("spec", data) :: rest) out) ->
    (forall e h',
        correctSpectrum self h data true = (Raise e, h') ->
        _plProcess self h
        = (Raise (AttributeError "insert"),
           set_plbuffer self (Some (mkBuffer rest out)), h')) /\
    (forall newspec h',
        correctSpectrum self h data true = (Ok newspec, h') ->
        _plProcess self h
        = (Ok tt,
           set_plbuffer self (Some (mkBuffer rest (out ++ [newspec])%list)), h')).
Proof.
  intros self h data rest out Hb; split.
  - intros e h' Hc.
    unfold _plProcess, ensure_plbuffer; rewrite Hb; simpl.
    rewrite correctSpectrum_buffer_irrelevant, Hc; reflexivity.
  - intros newspec h' Hc.
    unfold _plProcess, ensure_plbuffer; rewrite Hb; simpl.
    rewrite correctSpectrum_buffer_irrelevant, Hc; reflexivity.
Qed.

Lemma plProcess_outcomes_witness :
  (* the abstract law cannot correct the spectrum: the entry is lost *)
  _plProcess (snd (_plFeed abstract_law (DSpectrum 0%nat) PNone)) [sample_spectrum]
  = (Raise (AttributeError "insert"),
     set_plbuffer abstract_law (Some (mkBuffer [] [])),
     [sample_spectrum; sample_spectrum]) /\
  (* a law that can: the corrected copy, at reference 1, becomes ready *)
  exists h',
    _plProcess (snd (_plFeed (inverse_law (NScalar 1)) (DSpectrum 0%nat) PNone))
               [sample_spectrum]
    = (Ok tt, set_plbuffer (inverse_law (NScalar 1)) (Some (mkBuffer [] [1%nat])), h').
Proof.
  split.
  - refine (proj1 (plProcess_outcomes
                     (snd (_plFeed abstract_law (DSpectrum 0%nat) PNone))
                     [sample_spectrum] 0%nat [] [] eq_refl)
                  NotImplementedError _ _).
    reflexivity.
  - eexists.
    refine (proj2 (plProcess_outcomes
                     (snd (_plFeed (inverse_law (NScalar 1)) (DSpectrum 0%nat) PNone))
                     [sample_spectrum] 0%nat [] [] eq_refl)
                  1%nat _ _).
    reflexivity.
Defined.

(** ** Colour correction *)

Lemma correctColor_of_pair (bandwl : string -> option R) (self : Extinction)
    (colors : npval) (b1 b2 : atom) :
  correctColor bandwl self colors (PSeq [b1; b2])
  = (wl1 <- (if atom_is_str b1 then band_lookup bandwl b1 else Ok (atom_val b1)) ;;
     wl2 <- (if atom_is_str b1 then band_lookup bandwl b2 else Ok (atom_val b2)) ;;
     e1 <- call self wl1 ;;
     d <- np_sub colors e1 ;;
     e2 <- call self wl2 ;;
     np_add d e2).
Proof. reflexivity. Qed.

(** Two band names are both resolved through the table. *)
Lemma correctColor_two_names (bandwl : string -> option R) (self : Extinction)
    (colors : npval) (n1 n2 : string) (w1 w2 : R) :
  bandwl n1 = Some w1 -> bandwl n2 = Some w2 ->
  correctColor bandwl self colors (PSeq [AStr n1; AStr n2])
  = (e1 <- call self (PNum w1) ;;
     d <- np_sub colors e1 ;;
     e2 <- call self (PNum w2) ;;
     np_add d e2).
Proof.
  intros H1 H2; rewrite correctColor_of_pair; simpl; rewrite H1, H2; reflexivity.
Qed.

(** The comma form of the string argument parses, with or without the
    [E(...)] wrapper. *)
Lemma correctColor_comma_string (self : Extinction) (colors : npval) :
  correctColor sample_bandwl self colors (PStr "B,V")
  = correctColor sample_bandwl self colors (PSeq [AStr "B"; AStr "V"]) /\
  correctColor sample_bandwl self colors (PStr "E(B,V)")
  = correctColor sample_bandwl self colors (PSeq [AStr "B"; AStr "V"]).
Proof. split; reflexivity. Qed.

(** C4: [correctColor] at the inputs where it departs from its
    documentation.  The string ['E(B-V)'] is split at commas only, so the
    unpacking into two bands raises [ValueError].  The second band is
    resolved by the type of the first one: a name followed by a wavelength
    subscripts the band table with the wavelength ([KeyError]), and a
    wavelength followed by a name hands the name itself to the law. *)
Theorem correctColor_defects :
  forall (bandwl : string -> option R) (self : Extinction) (colors : npval),
    correctColor bandwl self colors (PStr "E(B-V)")
    = Raise (ValueError "need more than 1 value to unpack") /\
    (forall (name : string) (wl : R),
        correctColor bandwl self colors (PSeq [AStr name; ANum wl])
        = Raise KeyError) /\
    (forall (wl : R) (name : string),
        correctColor bandwl self colors (PSeq [ANum wl; AStr name])
        = (e1 <- call self (PNum wl) ;;
           d <- np_sub colors e1 ;;
           e2 <- call self (PStr name) ;;
           np_add d e2)).
Proof.
  intros bandwl self colors; split; [| split].
  - reflexivity.
  - intros name wl; rewrite correctColor_of_pair; simpl.
    destruct (bandwl name); reflexivity.
  - intros wl name; reflexivity.
Qed.

(** ** Calibration: the argument forms *)

Lemma Rnonzero_true (x : R) : x <> 0 -> Rnonzero x = true.
Proof. unfold Rnonzero; intros H; destruct (Req_dec_T x 0); [contradiction | reflexivity]. Qed.

Lemma Rnonzero_zero : Rnonzero 0 = false.
Proof. unfold Rnonzero; destruct (Req_dec_T 0 0); [reflexivity | contradiction]. Qed.

(** No exception leaves a partial calibration behind: the normalization
    is assigned by the last statement before the [return]. *)
Lemma computeA0_raise_keeps_law (self : Extinction)
    (measured expected lambda1 lambda2 : pyval)
    (ff : option (npval -> result npval)) (e : exn) :
  fst (computeA0FromFluxRatio self measured expected lambda1 lambda2 ff) = Raise e ->
  snd (computeA0FromFluxRatio self measured expected lambda1 lambda2 ff) = self.
Proof.
  unfold computeA0FromFluxRatio.
  destruct (a <- resolve_expected measured expected lambda1 lambda2 ;;
            raw <- raw_A0 self a ;; apply_filter ff raw); simpl.
  - discriminate.
  - reflexivity.
Qed.

(** A sequence that starts with a transition name and contains a number
    is rejected by the check of the source. *)
Lemma names_then_number_ValueError (self : Extinction) (measured l1 l2 : pyval)
    (ff : option (npval -> result npval)) (k : string) (es : list atom) :
  forallb atom_is_str es = false ->
  computeA0FromFluxRatio self measured (PSeq (AStr k :: es)) l1 l2 ff
  = (Raise (ValueError "expected must be only transitions or only numerical"),
     self).
Proof.
  intros H; unfold computeA0FromFluxRatio, resolve_expected; simpl.
  rewrite H; reflexivity.
Qed.

(** Numbers without wavelengths are rejected. *)
Lemma numbers_without_wavelengths_ValueError (self : Extinction)
    (measured : pyval) (ff : option (npval -> result npval)) (r : R)
    (es : list atom) :
  computeA0FromFluxRatio self measured (PSeq (ANum r :: es)) PNone PNone ff
  = (Raise (ValueError "need to provide wavelengths if not specifying transitions"),
     self).
Proof. reflexivity. Qed.

(** A sequence of transition names alone never calibrates: the branch
    that handles it leaves [R] unbound. *)
Lemma names_only_UnboundLocalError (self : Extinction) (measured l1 l2 : pyval)
    (ff : option (npval -> result npval)) :
  computeA0FromFluxRatio self measured (PSeq [AStr "Hab"; AStr "Hbg"]) l1 l2 ff
  = (Raise (UnboundLocalError "R"), self).
Proof. reflexivity. Qed.

(** With a transition name, [measured] is used as it is: a Python list
    cannot be divided by the ratio of the table. *)
Lemma named_key_list_TypeError (self : Extinction) (rs : list atom)
    (l1 l2 : pyval) (ff : option (npval -> result npval)) :
  computeA0FromFluxRatio self (PSeq rs) (PStr "Hab") l1 l2 ff
  = (Raise TypeError, self).
Proof. reflexivity. Qed.

Lemma numeric_np_array_cases (v : pyval) :
  numeric (np_array v) = Raise TypeError \/
  exists n, numeric (np_array v) = Ok n.
Proof.
  destruct v; simpl; auto; try (right; eexists; reflexivity).
  destruct (atoms_nums l); simpl; auto. right; eexists; reflexivity.
Qed.

(** C7: two malformed calls that the validation of
    [computeA0FromFluxRatio] lets through.  A scalar number as [expected]
    is subscripted ([expected[0]]) before any check, which is a
    [TypeError]; a sequence that starts with a number and contains a
    transition name passes the wavelength test when wavelengths are given
    and fails only in the arithmetic on the resulting array of strings,
    again with a [TypeError].  Neither raises the [ValueError] of the
    contract; both leave the normalization as it was. *)
Theorem computeA0_unvalidated_arguments :
  forall (self : Extinction) (ff : option (npval -> result npval)),
    (forall (measured : pyval) (r : R),
        computeA0FromFluxRatio self measured (PNum r) PNone PNone ff
        = (Raise TypeError, self)) /\
    (forall (measured : pyval) (r : R) (k : string) (l1 l2 : R),
        l1 <> 0 -> l2 <> 0 ->
        computeA0FromFluxRatio self measured (PSeq [ANum r; AStr k])
                               (PNum l1) (PNum l2) ff
        = (Raise TypeError, self)).
Proof.
  intros self ff; split.
  - intros measured r; reflexivity.
  - intros measured r k l1 l2 H1 H2.
    unfold computeA0FromFluxRatio, resolve_expected; simpl.
    rewrite (Rnonzero_true l1 H1), (Rnonzero_true l2 H2); simpl.
    unfold raw_A0; simpl.
    destruct (numeric_np_array_cases measured) as [E | [n E]];
      rewrite E; reflexivity.
Qed.

Lemma computeA0_unvalidated_arguments_witness :
  6562.82 <> 0 /\ 4861.33 <> 0 /\
  computeA0FromFluxRatio (inverse_law (NScalar 1)) (PArr [3; 3])
                         (PSeq [ANum 2.86; AStr "Hab"])
                         (PNum 6562.82) (PNum 4861.33) None
  = (Raise TypeError, inverse_law (NScalar 1)).
Proof.
  assert (H1 : 6562.82 <> 0) by lra.
  assert (H2 : 4861.33 <> 0) by lra.
  split; [exact H1 | split; [exact H2 |]].
  exact (proj2 (computeA0_unvalidated_arguments (inverse_law (NScalar 1)) None)
               (PArr [3; 3]) 2.86 "Hab" 6562.82 4861.33 H1 H2).
Defined.

(** ** Spectrum correction *)

Lemma deref_app_new (h : heap) (s : Spectrum) :
  deref (h ++ [s])%list (List.length h) = s.
Proof. unfold deref; rewrite app_nth2, Nat.sub_diag; [reflexivity | lia]. Qed.

Lemma deref_app_old (h : heap) (s : Spectrum) (l : loc) :
  (l < List.length h)%nat -> deref (h ++ [s])%list l = deref h l.
Proof. intros H; unfold deref; now rewrite app_nth1. Qed.

Lemma store_app_new (h : heap) (s s' : Spectrum) :
  store (h ++ [s])%list (List.length h) s' = (h ++ [s'])%list.
Proof. induction h as [| t h IH]; simpl; [reflexivity | now rewrite IH]. Qed.

Lemma deref_store (h : heap) (l : loc) (s : Spectrum) :
  (l < List.length h)%nat -> deref (store h l s) l = s.
Proof.
  revert l; induction h as [| t h IH]; intros l H; simpl in H; [lia |].
  destruct l; simpl; [reflexivity |]. apply IH; lia.
Qed.

Lemma store_store (h : heap) (l : loc) (s s' : Spectrum) :
  store (store h l s) l s' = store h l s'.
Proof.
  revert l; induction h as [| t h IH]; intros l; simpl; [reflexivity |].
  destruct l; simpl; [reflexivity | now rewrite IH].
Qed.

Lemma store_length (h : heap) (l : loc) (s : Spectrum) :
  List.length (store h l s) = List.length h.
Proof.
  revert l; induction h as [| t h IH]; intros l; simpl; [reflexivity |].
  destruct l; simpl; [reflexivity | now rewrite IH].
Qed.

Lemma zipWith_map_r {A B C D : Type} (op : A -> C -> D) (g : B -> C)
    (xs : list A) (ys : list B) :
  zipWith op xs (map g ys) = zipWith (fun x y => op x (g y)) xs ys.
Proof.
  revert ys; induction xs as [| x xs IH]; intros [| y ys]; simpl; try reflexivity.
  now rewrite IH.
Qed.

Lemma np_imul_array (fl es : list R) :
  List.length es = List.length fl ->
  np_imul fl (NArray (map pow10 (map (fun e => e / 2.5) es)))
  = Ok (zipWith deredden fl es).
Proof.
  intros H; simpl. rewrite !length_map, H, Nat.eqb_refl.
  now rewrite !zipWith_map_r.
Qed.

Ltac spectrum_fields :=
  cbn [sp_x sp_unit sp_axis sp_flux sp_err set_unit set_flux set_err np_map].

(** C9: [correctSpectrum] multiplies the flux and the error of the
    spectrum, sample by sample, by [10**(law(x)/2.5)], where [x] is the
    axis read under the unit ['wavelength-angstrom'], and returns the
    spectrum with its original unit tag.  By default the work is done on a
    copy: the returned object is new and the spectrum passed in keeps its
    unit, flux and error.  With [newspec] false the spectrum passed in is
    the one modified and returned. *)
Theorem correctSpectrum_corrects :
  forall (self : Extinction) (h : heap) (spec : loc) (es : list R),
    (spec < List.length h)%nat ->
    call self (PArr (sp_axis (deref h spec) "wavelength-angstrom"))
    = Ok (NArray es) ->
    List.length es = List.length (sp_flux (deref h spec)) ->
    List.length es = List.length (sp_err (deref h spec)) ->
    let s := deref h spec in
    let s' := mkSpectrum (sp_unit s) (sp_axis s)
                (zipWith deredden (sp_flux s) es)
                (zipWith deredden (sp_err s) es) in
    correctSpectrum self h spec true
    = (Ok (List.length h), (h ++ [s'])%list) /\
    deref (h ++ [s'])%list spec = s /\
    correctSpectrum self h spec false = (Ok spec, store h spec s').
Proof.
  intros self h spec es Hl Hcall Hfl Her s s'; subst s s'; split; [| split].
  - unfold correctSpectrum, copy.
    rewrite deref_app_new, store_app_new, deref_app_new.
    spectrum_fields. rewrite Hcall. spectrum_fields.
    rewrite (np_imul_array _ _ Hfl).
    rewrite store_app_new, deref_app_new. spectrum_fields.
    rewrite (np_imul_array _ _ Her).
    rewrite store_app_new, deref_app_new, store_app_new.
    reflexivity.
  - now apply deref_app_old.
  - unfold correctSpectrum; cbv beta iota zeta.
    repeat (rewrite store_store || rewrite (deref_store _ _ _ Hl)).
    spectrum_fields. rewrite Hcall. spectrum_fields.
    rewrite (np_imul_array _ _ Hfl).
    repeat (rewrite store_store || rewrite (deref_store _ _ _ Hl)).
    spectrum_fields.
    rewrite (np_imul_array _ _ Her).
    repeat (rewrite store_store || rewrite (deref_store _ _ _ Hl)).
    reflexivity.
Qed.

Lemma correctSpectrum_corrects_witness :
  correctSpectrum (inverse_law (NScalar 1)) [sample_spectrum] 0%nat true
  = (Ok 1%nat,
     [sample_spectrum;
      mkSpectrum "wavelength-angstrom" (fun _ => [5000; 10000])
        (zipWith deredden [1; 2] [1 * (1e4 / 5000); 1 * (1e4 / 10000)])
        (zipWith deredden [0.5; 0.25] [1 * (1e4 / 5000); 1 * (1e4 / 10000)])]).
Proof.
  exact (proj1 (correctSpectrum_corrects (inverse_law (NScalar 1))
                  [sample_spectrum] 0%nat
                  [1 * (1e4 / 5000); 1 * (1e4 / 10000)]
                  (le_n 1) eq_refl eq_refl eq_refl)).
Defined.

(** A failure of the law leaves the copy, not the spectrum passed in,
    with the working unit. *)
Lemma correctSpectrum_failure_keeps_original (self : Extinction) (h : heap)
    (spec : loc) (e : exn) :
  (spec < List.length h)%nat ->
  call self (PArr (sp_axis (deref h spec) "wavelength-angstrom")) = Raise e ->
  exists h', correctSpectrum self h spec true = (Raise e, h') /\
             deref h' spec = deref h spec.
Proof.
  intros Hl Hc; unfold correctSpectrum, copy.
  rewrite deref_app_new, store_app_new, deref_app_new.
  spectrum_fields; rewrite Hc.
  eexists; split; [reflexivity | now apply deref_app_old].
Qed.

(** ** The colour excess *)

Lemma self_f_set_A0 (b : Extinction) (a : npval) (lamb : pyval) :
  self_f (set_A0 b a) lamb = self_f b lamb.
Proof. reflexivity. Qed.

Lemma map_id_ext (g : R -> R) (l : list R) :
  (forall x, g x = x) -> map g l = l.
Proof.
  intros H; induction l as [| x l IH]; simpl; [reflexivity |].
  now rewrite H, IH.
Qed.

(** C5: setting the colour excess and reading it back gives the value
    that was set.  In real arithmetic the two computations
    [A0 = Rv*c/f(lambdaV)] and [A0*f(lambdaV)/Rv] are exact inverses when
    [Rv] and the shape at the V band are not zero; this holds for a scalar
    and, element by element, for an array of values. *)
Theorem EBmV_set_get :
  forall (lambdaV : R) (self : EBmVExtinction) (s : R),
    self_f (base self) (PNum lambdaV) = Ok (NScalar s) ->
    s <> 0 -> Rv self <> 0 ->
    (forall c : R,
        exists self',
          _setEBmV lambdaV self (NScalar c) = Ok self' /\
          A0 (base self') = NScalar (Rv self * c / s) /\
          _getEBmV lambdaV self' = Ok (NScalar c)) /\
    (forall cs : list R,
        exists self',
          _setEBmV lambdaV self (NArray cs) = Ok self' /\
          _getEBmV lambdaV self' = Ok (NArray cs)).
Proof.
  intros lambdaV self s Hf Hs HRv; split.
  - intros c; eexists; split; [| split].
    + unfold _setEBmV; simpl; rewrite Hf; simpl; reflexivity.
    + reflexivity.
    + unfold _getEBmV; simpl; rewrite self_f_set_A0, Hf; simpl.
      do 2 f_equal; field; auto.
  - intros cs; eexists; split.
    + unfold _setEBmV; simpl; rewrite Hf; simpl; reflexivity.
    + unfold _getEBmV; simpl; rewrite self_f_set_A0, Hf; simpl.
      do 2 f_equal; rewrite !map_map.
      apply map_id_ext; intros x; field; auto.
Qed.

Lemma EBmV_set_get_witness :
  exists self',
    _setEBmV 5500 (mkEBmV (inverse_law (NScalar 1)) 3.1) (NScalar 0.5) = Ok self' /\
    A0 (base self') = NScalar (3.1 * 0.5 / (1e4 / 5500)) /\
    _getEBmV 5500 self' = Ok (NScalar 0.5).
Proof.
  assert (Hs : 1e4 / 5500 <> 0) by lra.
  assert (HRv : Rv (mkEBmV (inverse_law (NScalar 1)) 3.1) <> 0) by (simpl; lra).
  exact (proj1 (EBmV_set_get 5500 (mkEBmV (inverse_law (NScalar 1)) 3.1)
                  (1e4 / 5500) eq_refl Hs HRv) 0.5).
Defined.

(** ** Comparisons and masks *)

Lemma Rleb_true (x y : R) : x <= y -> Rleb x y = true.
Proof. unfold Rleb; intros H; destruct (Rle_dec x y); [reflexivity | contradiction]. Qed.

Lemma Rleb_false (x y : R) : y < x -> Rleb x y = false.
Proof. unfold Rleb; intros H; destruct (Rle_dec x y); [lra | reflexivity]. Qed.

Lemma Rltb_true (x y : R) : x < y -> Rltb x y = true.
Proof. unfold Rltb; intros H; destruct (Rlt_dec x y); [reflexivity | contradiction]. Qed.

Lemma Rltb_false (x y : R) : y <= x -> Rltb x y = false.
Proof. unfold Rltb; intros H; destruct (Rlt_dec x y); [lra | reflexivity]. Qed.

Lemma Rleb_cases (x y : R) :
  (x <= y /\ Rleb x y = true) \/ (y < x /\ Rleb x y = false).
Proof.
  destruct (Rle_lt_dec x y) as [H | H].
  - left; split; [exact H | now apply Rleb_true].
  - right; split; [exact H | now apply Rleb_false].
Qed.

(** A masked in-place addition is an elementwise conditional. *)
Lemma masked_add (p : R -> bool) (g k : R -> R) (x : list R) :
  scatter (map p x)
          (zipWith Rplus (compress (map p x) (map g x))
                         (map k (compress (map p x) x)))
          (map g x)
  = map (fun t => if p t then g t + k t else g t) x.
Proof.
  induction x as [| t x IH]; simpl; [reflexivity |].
  destruct (p t); simpl; now rewrite IH.
Qed.

(** A masked assignment is an elementwise conditional. *)
Lemma masked_assign (p : R -> bool) (g : R -> R) (x a : list R) :
  List.length a = List.length x ->
  scatter (map p x) (map g (compress (map p x) x)) a
  = zipWith (fun t old => if p t then g t else old) x a.
Proof.
  revert a; induction x as [| t x IH]; intros [| o a] H; simpl in *;
    try reflexivity; try discriminate.
  injection H as H.
  destruct (p t); simpl; now rewrite IH.
Qed.

Lemma zipWith_length {A B C : Type} (op : A -> B -> C) (xs : list A) (ys : list B) :
  List.length ys = List.length xs ->
  List.length (zipWith op xs ys) = List.length xs.
Proof.
  revert ys; induction xs as [| x xs IH]; intros [| y ys] H; simpl in *;
    try reflexivity; try discriminate.
  now rewrite IH; [| injection H].
Qed.

Lemma zipWith_map_same (op : R -> R -> R) (g k : R -> R) (l : list R) :
  zipWith op (map g l) (map k l) = map (fun t => op (g t) (k t)) l.
Proof. induction l as [| t l IH]; simpl; [reflexivity | now rewrite IH]. Qed.

Lemma zipWith_const_map (H : R -> R -> R) (c : R -> R) (x a : list R) :
  List.length a = List.length x ->
  Forall (fun t => forall old, H t old = c t) x ->
  zipWith H x a = map c x.
Proof.
  revert a; induction x as [| t x IH]; intros [| o a] Hl Hx; simpl in *;
    try reflexivity; try discriminate.
  inversion Hx as [| ? ? Ht Hx']; subst.
  now rewrite Ht, IH; [| injection Hl |].
Qed.

(** ** The Fitzpatrick-Massa form *)

Lemma FM_f_scalar (C1 C2 C3 C4 x0 gamma Rv lamb : R) :
  FMExtinction_f C1 C2 C3 C4 x0 gamma Rv (PNum lamb)
  = Ok (NScalar (FM_shape C1 C2 C3 C4 x0 gamma Rv lamb)).
Proof.
  unfold FMExtinction_f, FM_shape; simpl.
  destruct (Rgeb (1e4 / lamb) 5.9); reflexivity.
Qed.

Lemma FM_f_array (C1 C2 C3 C4 x0 gamma Rv : R) (lambs : list R) :
  FMExtinction_f C1 C2 C3 C4 x0 gamma Rv (PArr lambs)
  = Ok (NArray (map (FM_shape C1 C2 C3 C4 x0 gamma Rv) lambs)).
Proof.
  unfold FMExtinction_f; simpl.
  rewrite masked_add, !map_map.
  do 2 f_equal. apply map_ext; intros l.
  unfold FM_shape; cbv zeta.
  destruct (Rgeb (1e4 / l) 5.9); reflexivity.
Qed.

Lemma FM_shape_far_uv (C1 C2 C3 C4 x0 gamma Rv lamb : R) :
  5.9 <= 1e4 / lamb ->
  FM_shape C1 C2 C3 C4 x0 gamma Rv lamb
  = FM_base C1 C2 C3 x0 gamma (1e4 / lamb)
    + C4 * (0.5392 * (1e4 / lamb - 5.9) ^ 2 + 0.05644 * (1e4 / lamb - 5.9) ^ 3)
    + Rv.
Proof.
  intros H; unfold FM_shape, Rgeb; cbv zeta.
  rewrite (Rleb_true _ _ H); reflexivity.
Qed.

Lemma FM_shape_below (C1 C2 C3 C4 x0 gamma Rv lamb : R) :
  1e4 / lamb < 5.9 ->
  FM_shape C1 C2 C3 C4 x0 gamma Rv lamb
  = FM_base C1 C2 C3 x0 gamma (1e4 / lamb) + Rv.
Proof.
  intros H; unfold FM_shape, Rgeb; cbv zeta.
  rewrite (Rleb_false _ _ H); reflexivity.
Qed.

(** An array with one element on each side of [x = 5.9]: only the first
    receives the far-ultraviolet term. *)
Lemma FM_f_mixed_regimes (C1 C2 C3 C4 x0 gamma Rv : R) :
  FMExtinction_f C1 C2 C3 C4 x0 gamma Rv (PArr [1000; 5000])
  = Ok (NArray
          [FM_base C1 C2 C3 x0 gamma (1e4 / 1000)
           + C4 * (0.5392 * (1e4 / 1000 - 5.9) ^ 2
                   + 0.05644 * (1e4 / 1000 - 5.9) ^ 3)
           + Rv;
           FM_base C1 C2 C3 x0 gamma (1e4 / 5000) + Rv]).
Proof.
  rewrite FM_f_array; simpl.
  rewrite FM_shape_far_uv by lra.
  rewrite FM_shape_below by lra.
  reflexivity.
Qed.




(** ** The CCM law *)

Lemma scatter_length (m : list bool) (vs a : list R) :
  List.length (scatter m vs a) = List.length a.
Proof.
  revert vs a; induction m as [| b m IH]; intros vs [| o a]; try reflexivity.
  - now destruct b.
  - destruct b; [destruct vs |]; simpl; now rewrite IH.
Qed.

Lemma zipWith_zipWith (F G : R -> R -> R) (x a : list R) :
  zipWith F x (zipWith G x a) = zipWith (fun t old => F t (G t old)) x a.
Proof.
  revert a; induction x as [| t x IH]; intros [| o a]; simpl; try reflexivity.
  now rewrite IH.
Qed.

Ltac split_Rleb :=
  repeat match goal with
         | |- context [Rleb ?a ?b] =>
             destruct (Rleb_cases a b) as [[? ->] | [? ->]]; try lra
         end.

Lemma ccm_a_pointwise (t old : R) :
  0.3 <= t <= 10 ->
  (if Rleb 8 t && Rleb t 10
   then polyval [-0.070; 0.137; -0.628; -1.073] (t - 8)
   else if Rleb 5.9 t && Rleb t 8 then ccm_nuv_a t
   else if Rleb 3.3 t && Rleb t 5.9
   then ccm_nuv_a t + (-0.04473 * (t - 5.9) ^ 2 - 0.009779 * (t - 5.9) ^ 3)
   else if Rleb 1.1 t && Rleb t 3.3
   then polyval [0.32999; -0.7753; 0.01979; 0.72085;
                 -0.02427; -0.50447; 0.17699; 1] (t - 1.82)
   else if Rleb 0.3 t && Rleb t 1.1 then 0.574 * Rpower t 1.61
   else old)
  = ccm_a t.
Proof.
  intros [Hlo Hhi]; unfold ccm_a.
  split_Rleb; reflexivity.
Qed.

Lemma ccm_b_pointwise (t old : R) :
  0.3 <= t <= 10 ->
  (if Rleb 8 t && Rleb t 10
   then polyval [0.374; -0.42; 4.257; 13.67] (t - 8)
   else if Rleb 5.9 t && Rleb t 8 then ccm_nuv_b t
   else if Rleb 3.3 t && Rleb t 5.9
   then ccm_nuv_b t + (-0.2130 * (t - 5.9) ^ 2 - 0.1207 * (t - 5.9) ^ 3)
   else if Rleb 1.1 t && Rleb t 3.3
   then polyval [-2.09002; 5.3026; -0.62251; -5.38434;
                 1.07233; 2.28305; 1.41338; 0] (t - 1.82)
   else if Rleb 0.3 t && Rleb t 1.1 then -0.527 * Rpower t 1.61
   else old)
  = ccm_b t.
Proof.
  intros [Hlo Hhi]; unfold ccm_b.
  split_Rleb; reflexivity.
Qed.

Ltac mask_lengths :=
  repeat rewrite scatter_length; rewrite ?length_map, ?length_seq; reflexivity.

(** Inside the range every position of [a] is written: the contents of
    the fresh array do not reach the result. *)
Lemma ccm_fill_a_in_range (junk_a : nat -> R) (x : list R) :
  Forall (fun t => 0.3 <= t <= 10) x ->
  ccm_fill_a junk_a x = map ccm_a x.
Proof.
  intros Hx; unfold ccm_fill_a, between; cbv zeta.
  rewrite (map_map (fun t => t - 5.9)).
  rewrite zipWith_map_same.
  repeat (rewrite masked_assign by mask_lengths).
  rewrite !zipWith_zipWith.
  apply zipWith_const_map; [mask_lengths |].
  apply Forall_impl with (2 := Hx); intros t Ht old.
  now apply ccm_a_pointwise.
Qed.

Lemma ccm_fill_b_in_range (junk_b : nat -> R) (x : list R) :
  Forall (fun t => 0.3 <= t <= 10) x ->
  ccm_fill_b junk_b x = map ccm_b x.
Proof.
  intros Hx; unfold ccm_fill_b, between; cbv zeta.
  rewrite (map_map (fun t => t - 5.9)).
  rewrite zipWith_map_same.
  repeat (rewrite masked_assign by mask_lengths).
  rewrite !zipWith_zipWith.
  apply zipWith_const_map; [mask_lengths |].
  apply Forall_impl with (2 := Hx); intros t Ht old.
  now apply ccm_b_pointwise.
Qed.

Lemma ccm_out_of_range_test (lambs : list R) :
  Exists (fun l => ~ ccm_in_range l) lambs ->
  existsb (fun t => Rltb t 0.3 || Rltb 10 t) (map (Rdiv 1e4) lambs) = true.
Proof.
  induction 1 as [l lambs H | l lambs H IH]; simpl.
  - unfold ccm_in_range in H.
    destruct (Rlt_dec (1e4 / l) 0.3) as [H1 | H1];
      [now rewrite (Rltb_true _ _ H1) |].
    destruct (Rlt_dec 10 (1e4 / l)) as [H2 | H2];
      [now rewrite (Rltb_true _ _ H2), orb_true_r |].
    exfalso; apply H; lra.
  - now rewrite IH, orb_true_r.
Qed.

Lemma ccm_in_range_test (lambs : list R) :
  Forall ccm_in_range lambs ->
  existsb (fun t => Rltb t 0.3 || Rltb 10 t) (map (Rdiv 1e4) lambs) = false.
Proof.
  induction 1 as [| l lambs [H1 H2] _ IH]; simpl; [reflexivity |].
  now rewrite (Rltb_false _ _ H1), (Rltb_false _ _ H2), IH.
Qed.

Lemma CCM_f_array_out (Rv : R) (ja jb : nat -> R) (lambs : list R) :
  Exists (fun l => ~ ccm_in_range l) lambs ->
  CardelliExtinction_f Rv ja jb (PArr lambs) = Raise ccm_range_error.
Proof.
  intros H; unfold CardelliExtinction_f.
  cbn [np_isscalar np_atleast_1d np_array numeric as_num bind np_div np_binop].
  now rewrite (ccm_out_of_range_test _ H).
Qed.

Lemma CCM_f_scalar_out (Rv : R) (ja jb : nat -> R) (lamb : R) :
  ~ ccm_in_range lamb ->
  CardelliExtinction_f Rv ja jb (PNum lamb) = Raise ccm_range_error.
Proof.
  intros H; unfold CardelliExtinction_f.
  cbn [np_isscalar np_atleast_1d np_array numeric as_num bind np_div np_binop].
  now rewrite (ccm_out_of_range_test [lamb] (Exists_cons_hd (fun l => ~ ccm_in_range l) lamb [] H)).
Qed.

Lemma ccm_values (Rv : R) (ja jb : nat -> R) (lambs : list R) :
  Forall ccm_in_range lambs ->
  zipWith Rplus (ccm_fill_a ja (map (Rdiv 1e4) lambs))
          (map (fun t => t / Rv) (ccm_fill_b jb (map (Rdiv 1e4) lambs)))
  = map (ccm_shape Rv) lambs.
Proof.
  intros H.
  assert (Hx : Forall (fun t => 0.3 <= t <= 10) (map (Rdiv 1e4) lambs)).
  { apply Forall_map; exact H. }
  rewrite (ccm_fill_a_in_range _ _ Hx), (ccm_fill_b_in_range _ _ Hx).
  rewrite !map_map, zipWith_map_same; reflexivity.
Qed.

Lemma CCM_f_array_in (Rv : R) (ja jb : nat -> R) (lambs : list R) :
  Forall ccm_in_range lambs ->
  CardelliExtinction_f Rv ja jb (PArr lambs)
  = Ok (NArray (map (ccm_shape Rv) lambs)).
Proof.
  intros H; unfold CardelliExtinction_f.
  cbn [np_isscalar np_atleast_1d np_array numeric as_num bind np_div np_binop].
  rewrite (ccm_in_range_test _ H), (ccm_values _ _ _ _ H); reflexivity.
Qed.

Lemma CCM_f_scalar_in (Rv : R) (ja jb : nat -> R) (lamb : R) :
  ccm_in_range lamb ->
  CardelliExtinction_f Rv ja jb (PNum lamb) = Ok (NScalar (ccm_shape Rv lamb)).
Proof.
  intros H; unfold CardelliExtinction_f.
  cbn [np_isscalar np_atleast_1d np_array numeric as_num bind np_div np_binop].
  assert (Hl : Forall ccm_in_range [lamb]) by (constructor; [exact H | constructor]).
  rewrite (ccm_in_range_test _ Hl), (ccm_values _ _ _ _ Hl); reflexivity.
Qed.

Lemma ccm_shape_low_end (Rv lamb : R) :
  1e4 / lamb = 0.3 ->
  ccm_shape Rv lamb = 0.574 * Rpower 0.3 1.61 + -0.527 * Rpower 0.3 1.61 / Rv.
Proof.
  intros H; unfold ccm_shape, ccm_a, ccm_b; rewrite H.
  split_Rleb; reflexivity.
Qed.

Lemma ccm_shape_high_end (Rv lamb : R) :
  1e4 / lamb = 10 ->
  ccm_shape Rv lamb
  = polyval [-0.070; 0.137; -0.628; -1.073] (10 - 8)
    + polyval [0.374; -0.42; 4.257; 13.67] (10 - 8) / Rv.
Proof.
  intros H; unfold ccm_shape, ccm_a, ccm_b; rewrite H.
  split_Rleb; reflexivity.
Qed.

(** C2: [CardelliExtinction.f] works on [x = 1e4/lamb].  A wavelength
    whose [x] lies outside [0.3 <= x <= 10] raises the [ValueError] 'some
    wavelengths outside CCM 89 extinction curve range', and so does an
    array that contains such a wavelength, whatever its other elements.
    Inside the range the call succeeds and returns [a(x) + b(x)/Rv], for a
    scalar and elementwise for an array; the two ends [x = 0.3] and
    [x = 10] are inside, with the infrared and the far-ultraviolet values
    of the curves. *)
Theorem CCM_f_domain :
  forall (Rv : R) (junk_a junk_b : nat -> R),
    let f := CardelliExtinction_f Rv junk_a junk_b in
    (forall lamb : R,
        ~ ccm_in_range lamb -> f (PNum lamb) = Raise ccm_range_error) /\
    (forall lambs : list R,
        Exists (fun l => ~ ccm_in_range l) lambs ->
        f (PArr lambs) = Raise ccm_range_error) /\
    (forall lamb : R,
        ccm_in_range lamb ->
        f (PNum lamb)
        = Ok (NScalar (ccm_a (1e4 / lamb) + ccm_b (1e4 / lamb) / Rv))) /\
    (forall lambs : list R,
        Forall ccm_in_range lambs ->
        f (PArr lambs)
        = Ok (NArray (map (fun l => ccm_a (1e4 / l) + ccm_b (1e4 / l) / Rv)
                          lambs))) /\
    (forall lamb : R,
        1e4 / lamb = 0.3 ->
        f (PNum lamb)
        = Ok (NScalar (0.574 * Rpower 0.3 1.61
                       + -0.527 * Rpower 0.3 1.61 / Rv))) /\
    (forall lamb : R,
        1e4 / lamb = 10 ->
        f (PNum lamb)
        = Ok (NScalar (polyval [-0.070; 0.137; -0.628; -1.073] (10 - 8)
                       + polyval [0.374; -0.42; 4.257; 13.67] (10 - 8) / Rv))).
Proof.
  intros Rv ja jb f; subst f; repeat apply conj.
  - intros lamb; apply CCM_f_scalar_out.
  - intros lambs; apply CCM_f_array_out.
  - intros lamb; apply CCM_f_scalar_in.
  - intros lambs; apply CCM_f_array_in.
  - intros lamb H.
    rewrite CCM_f_scalar_in by (unfold ccm_in_range; lra).
    now rewrite (ccm_shape_low_end _ _ H).
  - intros lamb H.
    rewrite CCM_f_scalar_in by (unfold ccm_in_range; lra).
    now rewrite (ccm_shape_high_end _ _ H).
Qed.

Lemma CCM_f_domain_witness :
  ~ ccm_in_range 909 /\
  CardelliExtinction_f 3.1 (fun _ => 0) (fun _ => 0) (PArr [5500; 909])
  = Raise ccm_range_error /\
  CardelliExtinction_f 3.1 (fun _ => 0) (fun _ => 0) (PNum 1000)
  = Ok (NScalar (polyval [-0.070; 0.137; -0.628; -1.073] (10 - 8)
                 + polyval [0.374; -0.42; 4.257; 13.67] (10 - 8) / 3.1)).
Proof.
  assert (H : ~ ccm_in_range 909) by (unfold ccm_in_range; lra).
  assert (H10 : 1e4 / 1000 = 10) by lra.
  pose proof (CCM_f_domain 3.1 (fun _ => 0) (fun _ => 0)) as T.
  split; [exact H | split].
  - exact (proj1 (proj2 T) [5500; 909]
                 (Exists_cons_tl 5500
                    (Exists_cons_hd (fun l => ~ ccm_in_range l) 909 [] H))).
  - exact (proj2 (proj2 (proj2 (proj2 (proj2 T)))) 1000 H10).
Defined.

(** ** Calibration from flux ratios *)

Lemma computeA0_from_raw (self : Extinction)
    (measured expected lambda1 lambda2 : pyval)
    (ff : option (npval -> result npval)) (args : ratio_args) (raw a : npval) :
  resolve_expected measured expected lambda1 lambda2 = Ok args ->
  raw_A0 self args = Ok raw ->
  apply_filter ff raw = Ok a ->
  computeA0FromFluxRatio self measured expected lambda1 lambda2 ff
  = (Ok (a, np_std a), set_A0 self a).
Proof.
  intros Hr Hraw Hf; unfold computeA0FromFluxRatio.
  rewrite Hr; cbn [bind]; rewrite Hraw; cbn [bind]; rewrite Hf; reflexivity.
Qed.

Lemma resolve_named (measured lambda1 lambda2 : pyval) (key : string)
    (r0 l1 l2 : R) :
  __balmerratios key = Some (r0, l1, l2) ->
  resolve_expected measured (PStr key) lambda1 lambda2
  = Ok (mkArgs (Some measured) (PNum r0) (PNum l1) (PNum l2)).
Proof. intros H; unfold resolve_expected, balmer_lookup; rewrite H; reflexivity. Qed.

Lemma resolve_numeric (measured expected lambda1 lambda2 : pyval) (e0 : R) :
  index0 expected = Ok (ANum e0) ->
  truth lambda1 = Ok true -> truth lambda2 = Ok true ->
  resolve_expected measured expected lambda1 lambda2
  = Ok (mkArgs (Some (np_array measured)) (np_array expected)
               (np_array lambda1) (np_array lambda2)).
Proof.
  intros Hi H1 H2; unfold resolve_expected.
  destruct expected; try (rewrite Hi; cbn [bind atom_is_str]; rewrite H1;
                          cbn [bind]; rewrite H2; reflexivity).
  simpl in Hi; destruct s; discriminate.
Qed.

Lemma broadcast_same_length (op : R -> R -> R) (xs ys : list R) :
  List.length xs = List.length ys ->
  broadcast op xs ys = Ok (zipWith op xs ys).
Proof. intros H; unfold broadcast; now rewrite H, Nat.eqb_refl. Qed.

Lemma map_zipWith {A B C D : Type} (g : C -> D) (op : A -> B -> C)
    (xs : list A) (ys : list B) :
  map g (zipWith op xs ys) = zipWith (fun x y => g (op x y)) xs ys.
Proof.
  revert ys; induction xs as [| x xs IH]; intros [| y ys]; simpl; try reflexivity.
  now rewrite IH.
Qed.

(** The raw normalization for one pair of wavelengths. *)
Lemma raw_A0_array_scalar (self : Extinction) (rs : list R) (r0 : R)
    (w1 w2 : pyval) (s1 s2 : R) :
  self_f self w1 = Ok (NScalar s1) ->
  self_f self w2 = Ok (NScalar s2) ->
  raw_A0 self (mkArgs (Some (PArr rs)) (PNum r0) w1 w2)
  = Ok (NArray (map (fun r => A0_term r r0 s1 s2) rs)).
Proof.
  intros H1 H2; unfold raw_A0; simpl; rewrite H1, H2; simpl.
  now rewrite !map_map.
Qed.

Lemma raw_A0_scalar_scalar (self : Extinction) (r r0 : R)
    (w1 w2 : pyval) (s1 s2 : R) :
  self_f self w1 = Ok (NScalar s1) ->
  self_f self w2 = Ok (NScalar s2) ->
  raw_A0 self (mkArgs (Some (PNum r)) (PNum r0) w1 w2)
  = Ok (NScalar (A0_term r r0 s1 s2)).
Proof. intros H1 H2; unfold raw_A0; simpl; rewrite H1, H2; reflexivity. Qed.

(** The raw normalization for arrays of ratios and one pair of
    wavelengths. *)
Lemma raw_A0_arrays_scalar (self : Extinction) (rs r0s : list R)
    (w1 w2 : pyval) (s1 s2 : R) :
  List.length rs = List.length r0s ->
  self_f self w1 = Ok (NScalar s1) ->
  self_f self w2 = Ok (NScalar s2) ->
  raw_A0 self (mkArgs (Some (PArr rs)) (PArr r0s) w1 w2)
  = Ok (NArray (zipWith (fun r r0 => A0_term r r0 s1 s2) rs r0s)).
Proof.
  intros Hl H1 H2; unfold raw_A0.
  cbn [arg_R arg_R0 arg_lambda1 arg_lambda2 bind numeric as_num np_div np_binop].
  rewrite (broadcast_same_length _ _ _ Hl); cbn [bind np_map].
  rewrite H1, H2; cbn [bind np_sub np_binop np_div].
  now rewrite !map_zipWith.
Qed.

(** The raw normalization for arrays of ratios and of wavelengths. *)
Lemma raw_A0_arrays_arrays (self : Extinction) (rs r0s : list R)
    (w1 w2 : pyval) (s1s s2s : list R) :
  List.length rs = List.length r0s ->
  List.length s1s = List.length r0s ->
  List.length s2s = List.length r0s ->
  self_f self w1 = Ok (NArray s1s) ->
  self_f self w2 = Ok (NArray s2s) ->
  raw_A0 self (mkArgs (Some (PArr rs)) (PArr r0s) w1 w2)
  = Ok (NArray (zipWith Rdiv
                  (zipWith (fun r r0 => -2.5 * log10 (r / r0)) rs r0s)
                  (zipWith Rminus s1s s2s))).
Proof.
  intros Hl Hs1 Hs2 H1 H2; unfold raw_A0.
  cbn [arg_R arg_R0 arg_lambda1 arg_lambda2 bind numeric as_num np_div np_binop].
  rewrite (broadcast_same_length _ _ _ Hl); cbn [bind np_map].
  rewrite H1, H2; cbn [bind np_sub np_binop np_div].
  rewrite (broadcast_same_length Rminus s1s s2s) by congruence; cbn [bind].
  rewrite broadcast_same_length.
  - cbn [bind]. now rewrite !map_zipWith.
  - rewrite !length_map, !zipWith_length; congruence.
Qed.

Lemma ln_10_pos : 0 < ln 10.
Proof. rewrite <- ln_1; apply ln_increasing; lra. Qed.

Lemma log10_pow10 (y : R) : log10 (pow10 y) = y.
Proof.
  unfold log10, pow10; rewrite ln_exp.
  field; apply Rgt_not_eq, ln_10_pos.
Qed.

Lemma balmer_ratio_nonzero (key : string) (r0 l1 l2 : R) :
  __balmerratios key = Some (r0, l1, l2) -> r0 <> 0.
Proof.
  unfold __balmerratios; intros H.
  repeat match type of H with
         | (if ?b then _ else _) = _ =>
             destruct b; [injection H as <- _ _; lra |]
         end.
  discriminate.
Qed.

(** The calibration inverts the reddening of a ratio: a ratio reddened
    with the normalization [A] gives back [A]. *)
Lemma A0_term_recovers (r0 s1 s2 A : R) :
  r0 <> 0 -> s1 <> s2 ->
  A0_term (r0 * pow10 (-0.4 * (s1 - s2) * A)) r0 s1 s2 = A.
Proof.
  intros Hr Hs; unfold A0_term.
  assert (E : forall p, r0 * p / r0 = p) by (intros p; field; exact Hr).
  rewrite E, log10_pow10.
  assert (Hd : s1 - s2 <> 0) by lra.
  revert Hd; generalize (s1 - s2); intros d Hd.
  replace (-2.5 * (-0.4 * d * A)) with (A * d) by nra.
  field; exact Hd.
Qed.

Lemma computeA0_recovers (self : Extinction) (key : string)
    (r0 l1 l2 s1 s2 A : R) (lambda1 lambda2 : pyval) :
  __balmerratios key = Some (r0, l1, l2) ->
  self_f self (PNum l1) = Ok (NScalar s1) ->
  self_f self (PNum l2) = Ok (NScalar s2) ->
  s1 <> s2 ->
  computeA0FromFluxRatio self (PNum (r0 * pow10 (-0.4 * (s1 - s2) * A)))
                         (PStr key) lambda1 lambda2 None
  = (Ok (NScalar A, 0), set_A0 self (NScalar A)).
Proof.
  intros Hk H1 H2 Hs.
  rewrite (computeA0_from_raw _ _ _ _ _ None _ _ (NScalar A)
             (resolve_named _ _ _ _ _ _ _ Hk)
             (raw_A0_scalar_scalar _ _ _ _ _ _ _ H1 H2)).
  - reflexivity.
  - simpl; f_equal; f_equal.
    apply A0_term_recovers; [exact (balmer_ratio_nonzero _ _ _ _ Hk) | exact Hs].
Qed.

Lemma apply_filter_cases (ff : option (npval -> result npval)) (raw a : npval) :
  (ff = None /\ a = raw) \/ (exists g, ff = Some g /\ g raw = Ok a) ->
  apply_filter ff raw = Ok a.
Proof.
  intros [[-> ->] | [g [-> Hg]]]; [reflexivity | exact Hg].
Qed.

Lemma truth_nonzero (l : R) : l <> 0 -> truth (PNum l) = Ok true.
Proof. intros H; simpl; now rewrite (Rnonzero_true l H). Qed.

(** C1: the formula of [computeA0FromFluxRatio] and the one form of its
    arguments on which the method fails.  An expected ratio given as a
    plain number is subscripted by [expected[0]] before anything is
    computed: the call raises [TypeError] and leaves the law as it was,
    also when both wavelengths are given.  On a named transition, and on
    sequences of numeric ratios with given wavelengths, the method
    computes for each measurement
    [A0_i = -2.5*log10(R_i/R0_i)/(f(lambda1)-f(lambda2))], calls the filter
    on that array (without a filter the array is kept), stores the
    filtered value as the new [A0] of the law and returns it together
    with its standard deviation.  A ratio synthesised as
    [R0 * 10**(-0.4*(f(lambda1)-f(lambda2))*2.0)] is calibrated back to the
    normalization [2.0].  Ratios are positive and the law separates the
    two wavelengths. *)
Theorem computeA0FromFluxRatio_spec :
  forall (self : Extinction),
    let filtered :=
      fun (ff : option (npval -> result npval)) (raw a : npval) =>
        (ff = None /\ a = raw) \/ (exists g, ff = Some g /\ g raw = Ok a) in
    let term :=
      fun r r0 s1 s2 : R => -2.5 * log10 (r / r0) / (s1 - s2) in
    (* an expected ratio that is a plain number *)
    (forall (measured lambda1 lambda2 : pyval) (e0 : R)
            (ff : option (npval -> result npval)),
        computeA0FromFluxRatio self measured (PNum e0) lambda1 lambda2 ff
        = (Raise TypeError, self)) /\
    (* a named transition *)
    (forall (key : string) (r0 l1 l2 s1 s2 : R) (rs : list R)
            (lambda1 lambda2 : pyval) (ff : option (npval -> result npval))
            (a : npval),
        __balmerratios key = Some (r0, l1, l2) ->
        self_f self (PNum l1) = Ok (NScalar s1) ->
        self_f self (PNum l2) = Ok (NScalar s2) ->
        s1 <> s2 ->
        Forall (fun r => 0 < r) rs ->
        filtered ff (NArray (map (fun r => term r r0 s1 s2) rs)) a ->
        computeA0FromFluxRatio self (PArr rs) (PStr key) lambda1 lambda2 ff
        = (Ok (a, np_std a), set_A0 self a)) /\
    (* numeric ratios, one pair of wavelengths *)
    (forall (measured expected lambda1 lambda2 : pyval) (e0 : R)
            (rs r0s : list R) (s1 s2 : R)
            (ff : option (npval -> result npval)) (a : npval),
        index0 expected = Ok (ANum e0) ->
        np_array expected = PArr r0s ->
        np_array measured = PArr rs ->
        List.length rs = List.length r0s ->
        Forall (fun r => 0 < r) rs ->
        Forall (fun r0 => 0 < r0) r0s ->
        truth lambda1 = Ok true -> truth lambda2 = Ok true ->
        self_f self (np_array lambda1) = Ok (NScalar s1) ->
        self_f self (np_array lambda2) = Ok (NScalar s2) ->
        s1 <> s2 ->
        filtered ff (NArray (zipWith (fun r r0 => term r r0 s1 s2) rs r0s)) a ->
        computeA0FromFluxRatio self measured expected lambda1 lambda2 ff
        = (Ok (a, np_std a), set_A0 self a)) /\
    (* numeric ratios, one pair of wavelengths for each measurement *)
    (forall (measured expected lambda1 lambda2 : pyval) (e0 : R)
            (rs r0s s1s s2s : list R)
            (ff : option (npval -> result npval)) (a : npval),
        index0 expected = Ok (ANum e0) ->
        np_array expected = PArr r0s ->
        np_array measured = PArr rs ->
        List.length rs = List.length r0s ->
        List.length s1s = List.length r0s ->
        List.length s2s = List.length r0s ->
        Forall (fun r => 0 < r) rs ->
        Forall (fun r0 => 0 < r0) r0s ->
        truth lambda1 = Ok true -> truth lambda2 = Ok true ->
        self_f self (np_array lambda1) = Ok (NArray s1s) ->
        self_f self (np_array lambda2) = Ok (NArray s2s) ->
        Forall2 (fun s1 s2 => s1 <> s2) s1s s2s ->
        filtered ff
          (NArray (zipWith Rdiv
                     (zipWith (fun r r0 => -2.5 * log10 (r / r0)) rs r0s)
                     (zipWith Rminus s1s s2s))) a ->
        computeA0FromFluxRatio self measured expected lambda1 lambda2 ff
        = (Ok (a, np_std a), set_A0 self a)) /\
    (* a filter that raises *)
    (forall (key : string) (r0 l1 l2 s1 s2 : R) (rs : list R)
            (lambda1 lambda2 : pyval) (g : npval -> result npval) (e : exn),
        __balmerratios key = Some (r0, l1, l2) ->
        self_f self (PNum l1) = Ok (NScalar s1) ->
        self_f self (PNum l2) = Ok (NScalar s2) ->
        s1 <> s2 ->
        Forall (fun r => 0 < r) rs ->
        g (NArray (map (fun r => term r r0 s1 s2) rs)) = Raise e ->
        computeA0FromFluxRatio self (PArr rs) (PStr key) lambda1 lambda2 (Some g)
        = (Raise e, self)) /\
    (* recovery of a known normalization *)
    (forall (key : string) (r0 l1 l2 s1 s2 : R) (lambda1 lambda2 : pyval),
        __balmerratios key = Some (r0, l1, l2) ->
        self_f self (PNum l1) = Ok (NScalar s1) ->
        self_f self (PNum l2) = Ok (NScalar s2) ->
        s1 <> s2 ->
        computeA0FromFluxRatio self
          (PNum (r0 * pow10 (-0.4 * (s1 - s2) * 2.0)))
          (PStr key) lambda1 lambda2 None
        = (Ok (NScalar 2.0, 0), set_A0 self (NScalar 2.0))).
Proof.
  intros self filtered term; repeat apply conj.
  - intros measured lambda1 lambda2 e0 ff; reflexivity.
  - intros key r0 l1 l2 s1 s2 rs lambda1 lambda2 ff a Hk H1 H2 _ _ Hf.
    exact (computeA0_from_raw _ _ _ _ _ _ _ _ _
             (resolve_named _ _ _ _ _ _ _ Hk)
             (raw_A0_array_scalar _ _ _ _ _ _ _ H1 H2)
             (apply_filter_cases _ _ _ Hf)).
  - intros measured expected lambda1 lambda2 e0 rs r0s s1 s2 ff a
           Hi He Hm Hl _ _ Ht1 Ht2 H1 H2 _ Hf.
    refine (computeA0_from_raw _ _ _ _ _ _ _ _ _
              (resolve_numeric _ _ _ _ _ Hi Ht1 Ht2) _
              (apply_filter_cases _ _ _ Hf)).
    rewrite He, Hm. now apply raw_A0_arrays_scalar.
  - intros measured expected lambda1 lambda2 e0 rs r0s s1s s2s ff a
           Hi He Hm Hl Hs1 Hs2 _ _ Ht1 Ht2 H1 H2 _ Hf.
    refine (computeA0_from_raw _ _ _ _ _ _ _ _ _
              (resolve_numeric _ _ _ _ _ Hi Ht1 Ht2) _
              (apply_filter_cases _ _ _ Hf)).
    rewrite He, Hm. now apply raw_A0_arrays_arrays.
  - intros key r0 l1 l2 s1 s2 rs lambda1 lambda2 g e Hk H1 H2 _ _ Hg.
    unfold computeA0FromFluxRatio.
    rewrite (resolve_named _ _ _ _ _ _ _ Hk); cbn [bind].
    rewrite (raw_A0_array_scalar _ _ _ _ _ _ _ H1 H2); cbn [bind apply_filter].
    unfold term in Hg; unfold A0_term; rewrite Hg; reflexivity.
  - intros key r0 l1 l2 s1 s2 lambda1 lambda2.
    apply computeA0_recovers.
Qed.

Lemma computeA0FromFluxRatio_spec_witness :
  (* a named transition, two measurements, no filter *)
  computeA0FromFluxRatio (inverse_law (NScalar 1)) (PArr [3; 3.2]) (PStr "Hab")
                         PNone PNone None
  = (let a := NArray (map (fun r => -2.5 * log10 (r / 2.86)
                                    / (1e4 / 6562.82 - 1e4 / 4861.33))
                          [3; 3.2]) in
     (Ok (a, np_std a), set_A0 (inverse_law (NScalar 1)) a)) /\
  (* the same with the mean as filter *)
  computeA0FromFluxRatio (inverse_law (NScalar 1)) (PArr [3; 3.2]) (PStr "Hab")
                         PNone PNone
                         (Some (fun v => Ok (NScalar (Rmean (atleast_1d_num v)))))
  = (let a := NScalar (Rmean (map (fun r => -2.5 * log10 (r / 2.86)
                                            / (1e4 / 6562.82 - 1e4 / 4861.33))
                                  [3; 3.2])) in
     (Ok (a, np_std a), set_A0 (inverse_law (NScalar 1)) a)) /\
  (* numeric ratios with their wavelengths *)
  computeA0FromFluxRatio (inverse_law (NScalar 1))
                         (PSeq [ANum 3; ANum 3.2]) (PSeq [ANum 2.86; ANum 2.86])
                         (PNum 6562.82) (PNum 4861.33) None
  = (let a := NArray (zipWith (fun r r0 => -2.5 * log10 (r / r0)
                                           / (1e4 / 6562.82 - 1e4 / 4861.33))
                              [3; 3.2] [2.86; 2.86]) in
     (Ok (a, np_std a), set_A0 (inverse_law (NScalar 1)) a)) /\
  (* a filter that raises *)
  computeA0FromFluxRatio (inverse_law (NScalar 1)) (PArr [3; 3.2]) (PStr "Hab")
                         PNone PNone (Some (fun _ => Raise IndexError))
  = (Raise IndexError, inverse_law (NScalar 1)) /\
  (* a ratio reddened with normalization 2.0 *)
  computeA0FromFluxRatio (inverse_law (NScalar 2.0))
    (PNum (2.86 * pow10 (-0.4 * (1e4 / 6562.82 - 1e4 / 4861.33) * 2.0)))
    (PStr "Hab") PNone PNone None
  = (Ok (NScalar 2.0, 0), set_A0 (inverse_law (NScalar 2.0)) (NScalar 2.0)).
Proof.
  assert (H1 : 6562.82 <> 0) by lra.
  assert (H2 : 4861.33 <> 0) by lra.
  assert (Hs : 1e4 / 6562.82 <> 1e4 / 4861.33) by lra.
  assert (Hr : Forall (fun r => 0 < r) [3; 3.2]) by (repeat constructor; lra).
  assert (Hr0 : Forall (fun r => 0 < r) [2.86; 2.86]) by (repeat constructor; lra).
  pose proof (computeA0FromFluxRatio_spec (inverse_law (NScalar 1)))
    as [_ [Hnamed [Hnum [_ [Hraise _]]]]].
  pose proof (computeA0FromFluxRatio_spec (inverse_law (NScalar 2.0)))
    as [_ [_ [_ [_ [_ Hrec]]]]].
  split; [| split; [| split; [| split]]].
  - exact (Hnamed "Hab" 2.86 6562.82 4861.33 (1e4 / 6562.82) (1e4 / 4861.33)
             [3; 3.2] PNone PNone None _ eq_refl eq_refl eq_refl Hs Hr
             (or_introl (conj eq_refl eq_refl))).
  - exact (Hnamed "Hab" 2.86 6562.82 4861.33 (1e4 / 6562.82) (1e4 / 4861.33)
             [3; 3.2] PNone PNone
             (Some (fun v => Ok (NScalar (Rmean (atleast_1d_num v))))) _
             eq_refl eq_refl eq_refl Hs Hr
             (or_intror (ex_intro _ _ (conj eq_refl eq_refl)))).
  - exact (Hnum (PSeq [ANum 3; ANum 3.2]) (PSeq [ANum 2.86; ANum 2.86])
             (PNum 6562.82) (PNum 4861.33) 2.86 [3; 3.2] [2.86; 2.86]
             (1e4 / 6562.82) (1e4 / 4861.33) None _
             eq_refl eq_refl eq_refl eq_refl Hr Hr0
             (truth_nonzero _ H1) (truth_nonzero _ H2)
             eq_refl eq_refl Hs (or_introl (conj eq_refl eq_refl))).
  - exact (Hraise "Hab" 2.86 6562.82 4861.33 (1e4 / 6562.82) (1e4 / 4861.33)
             [3; 3.2] PNone PNone (fun _ => Raise IndexError) IndexError
             eq_refl eq_refl eq_refl Hs Hr eq_refl).
  - exact (Hrec "Hab" 2.86 6562.82 4861.33 (1e4 / 6562.82) (1e4 / 4861.33)
             PNone PNone eq_refl eq_refl eq_refl Hs).
Defined.

(* ================================================================== *)
(** * Further properties of the photometric operations *)
(* ================================================================== *)

Lemma pow10_pos (y : R) : 0 < pow10 y.
Proof. unfold pow10; apply exp_pos. Qed.

Lemma pow10_plus (x y : R) : pow10 (x + y) = pow10 x * pow10 y.
Proof. unfold pow10; rewrite Rmult_plus_distr_r; apply exp_plus. Qed.

Lemma pow10_0 : pow10 0 = 1.
Proof. unfold pow10; rewrite Rmult_0_l; apply exp_0. Qed.

Lemma pow10_log10 (x : R) : 0 < x -> pow10 (log10 x) = x.
Proof.
  intros H; unfold pow10, log10.
  replace (ln x / ln 10 * ln 10) with (ln x)
    by (field; apply Rgt_not_eq, ln_10_pos).
  now apply exp_ln.
Qed.

Lemma log10_mult (x y : R) : 0 < x -> 0 < y -> log10 (x * y) = log10 x + log10 y.
Proof.
  intros Hx Hy; unfold log10; rewrite ln_mult by assumption.
  field; apply Rgt_not_eq, ln_10_pos.
Qed.

(** A band name stands for its wavelength. *)
Lemma correctPhotometry_by_name (bandwl : string -> option R)
    (self : Extinction) (mags : npval) (name : string) (wl : R) :
  bandwl name = Some wl ->
  correctPhotometry bandwl self mags (PStr name)
  = correctPhotometry bandwl self mags (PNum wl).
Proof. intros H; unfold correctPhotometry; simpl; now rewrite H. Qed.

(** Adding the extinction of the band back to a corrected magnitude, or
    to an array of corrected magnitudes, gives the magnitudes that were
    passed in; the band may be given by name or by wavelength. *)
Theorem correctPhotometry_inverse :
  forall (bandwl : string -> option R) (self : Extinction) (band : pyval)
         (wl e : R),
    band = PNum wl \/ (exists name, band = PStr name /\ bandwl name = Some wl) ->
    call self (PNum wl) = Ok (NScalar e) ->
    (forall m : R,
        (c <- correctPhotometry bandwl self (NScalar m) band ;;
         np_add c (NScalar e)) = Ok (NScalar m)) /\
    (forall ms : list R,
        (c <- correctPhotometry bandwl self (NArray ms) band ;;
         np_add c (NScalar e)) = Ok (NArray ms)).
Proof.
  intros bandwl self band wl e Hb Hc.
  assert (E : forall mags, correctPhotometry bandwl self mags band
                           = np_sub mags (NScalar e)).
  { intros mags.
    destruct Hb as [-> | [name [-> Hn]]];
      [| rewrite (correctPhotometry_by_name _ _ _ _ _ Hn)];
      unfold correctPhotometry; cbn [bind]; rewrite Hc; reflexivity. }
  split.
  - intros m; rewrite E; simpl. do 2 f_equal; lra.
  - intros ms; rewrite E; simpl. do 2 f_equal.
    rewrite map_map; apply map_id_ext; intros x; lra.
Qed.

Lemma correctPhotometry_inverse_witness :
  (c <- correctPhotometry sample_bandwl (inverse_law (NScalar 2))
                          (NArray [15; 16.5]) (PStr "V") ;;
   np_add c (NScalar (2 * (1e4 / 5500)))) = Ok (NArray [15; 16.5]).
Proof.
  exact (proj2 (correctPhotometry_inverse sample_bandwl (inverse_law (NScalar 2))
                  (PStr "V") 5500 (2 * (1e4 / 5500))
                  (or_intror (ex_intro _ "V" (conj eq_refl eq_refl)))
                  eq_refl) [15; 16.5]).
Defined.

(** Flux and magnitude corrections agree: the magnitude of a corrected
    flux is the corrected magnitude of the flux. *)
Theorem correctFlux_matches_correctPhotometry :
  forall (bandwl : string -> option R) (self : Extinction) (wl e flux : R),
    0 < flux ->
    call self (PNum wl) = Ok (NScalar e) ->
    exists c : R,
      correctFlux self (NScalar flux) (PNum wl) = Ok (NScalar c) /\
      0 < c /\
      correctPhotometry bandwl self (NScalar (-2.5 * log10 flux)) (PNum wl)
      = Ok (NScalar (-2.5 * log10 c)).
Proof.
  intros bandwl self wl e flux Hf Hc.
  exists (flux * pow10 (e / 2.5)); split; [| split].
  - unfold correctFlux; cbn [bind]; rewrite Hc; reflexivity.
  - apply Rmult_lt_0_compat; [exact Hf | apply pow10_pos].
  - unfold correctPhotometry; cbn [bind]; rewrite Hc; simpl.
    do 2 f_equal.
    rewrite log10_mult by (try exact Hf; apply pow10_pos).
    rewrite log10_pow10; lra.
Qed.

Lemma correctFlux_matches_correctPhotometry_witness :
  exists c : R,
    correctFlux (inverse_law (NScalar 2)) (NScalar 3) (PNum 5500) = Ok (NScalar c) /\
    0 < c /\
    correctPhotometry sample_bandwl (inverse_law (NScalar 2))
                      (NScalar (-2.5 * log10 3)) (PNum 5500)
    = Ok (NScalar (-2.5 * log10 c)).
Proof.
  assert (H : 0 < 3) by lra.
  exact (correctFlux_matches_correctPhotometry sample_bandwl
           (inverse_law (NScalar 2)) 5500 (2 * (1e4 / 5500)) 3 H eq_refl).
Defined.

(** The three laws of the module that compute a shape all start by
    dividing by the wavelength: a string is a [TypeError]. *)
Lemma laws_reject_strings (s : string) :
  (forall C1 C2 C3 C4 x0 gamma Rv,
      FMExtinction_f C1 C2 C3 C4 x0 gamma Rv (PStr s) = Raise TypeError) /\
  (forall Rv ja jb, CardelliExtinction_f Rv ja jb (PStr s) = Raise TypeError) /\
  CalzettiExtinction_f (PStr s) = Raise TypeError.
Proof. repeat split. Qed.

(** A name of the table of built-in lines stands for its wavelength in
    [correctFlux].  Any other string is not looked up anywhere: it is
    handed to the law, and the laws of the module fail on it with a
    [TypeError], not with a lookup error. *)
Theorem correctFlux_line_names :
  forall (self : Extinction) (flux : npval),
    (forall (key : string) (wl : R),
        __builtinlines key = Some wl ->
        correctFlux self flux (PStr key) = correctFlux self flux (PNum wl)) /\
    (forall key : string,
        __builtinlines key = None ->
        attr_f self = None ->
        (exists C1 C2 C3 C4 x0 gamma Rv,
            klass_f self = FMExtinction_f C1 C2 C3 C4 x0 gamma Rv) \/
        (exists Rv ja jb, klass_f self = CardelliExtinction_f Rv ja jb) \/
        klass_f self = CalzettiExtinction_f ->
        correctFlux self flux (PStr key) = Raise TypeError).
Proof.
  intros self flux; split.
  - intros key wl H; unfold correctFlux; now rewrite H.
  - intros key H Ha Hk; unfold correctFlux; rewrite H.
    unfold call, self_f; rewrite Ha.
    destruct Hk as [[C1 [C2 [C3 [C4 [x0 [g [Rv ->]]]]]]] | [[Rv [ja [jb ->]]] | ->]];
      reflexivity.
Qed.

Lemma correctFlux_line_names_witness :
  correctFlux (calzetti_law (NScalar 1)) (NScalar 3) (PStr "Hb")
  = correctFlux (calzetti_law (NScalar 1)) (NScalar 3) (PNum 4861.33) /\
  correctFlux (calzetti_law (NScalar 1)) (NScalar 3) (PStr "OIII") = Raise TypeError.
Proof.
  pose proof (correctFlux_line_names (calzetti_law (NScalar 1)) (NScalar 3)) as T.
  split.
  - exact (proj1 T "Hb" 4861.33 eq_refl).
  - exact (proj2 T "OIII" eq_refl eq_refl (or_intror (or_intror eq_refl))).
Defined.

(** ** The law of Calzetti et al. *)

Lemma Calzetti_poly_Q (x : R) : polyval CalzettiExtinction_poly x = Calzetti_Q x.
Proof. unfold polyval, CalzettiExtinction_poly, Calzetti_Q; simpl; lra. Qed.

(** The polynomial that [CalzettiExtinction.f] evaluates is the [Q(x)]
    of its docstring, at [x = 1e4/lamb], elementwise on an array of
    non-zero wavelengths; read as an optical depth, it makes [correctFlux]
    multiply a flux by [exp(-A0*Q(x))]. *)
Theorem Calzetti_optical_depth :
  (forall lamb : R,
      lamb <> 0 ->
      CalzettiExtinction_f (PNum lamb)
      = Ok (NScalar (-2.5 / ln 10 * Calzetti_Q (1e4 / lamb)))) /\
  (forall lambs : list R,
      Forall (fun l => l <> 0) lambs ->
      CalzettiExtinction_f (PArr lambs)
      = Ok (NArray (map (fun l => -2.5 / ln 10 * Calzetti_Q (1e4 / l)) lambs))) /\
  (forall a flux lamb : R,
      lamb <> 0 ->
      correctFlux (calzetti_law (NScalar a)) (NScalar flux) (PNum lamb)
      = Ok (NScalar (flux * exp (- a * Calzetti_Q (1e4 / lamb))))).
Proof.
  split; [| split].
  - intros lamb _; unfold CalzettiExtinction_f; simpl.
    now rewrite Calzetti_poly_Q.
  - intros lambs _; unfold CalzettiExtinction_f; simpl.
    rewrite !map_map. do 2 f_equal.
    apply map_ext; intros l; now rewrite Calzetti_poly_Q.
  - intros a flux lamb _; unfold correctFlux, call, self_f; simpl.
    rewrite Calzetti_poly_Q. do 3 f_equal.
    unfold pow10. f_equal.
    replace (-2.5) with (- (5 / 2)) by lra.
    replace 2.5 with (5 / 2) by lra.
    field. apply Rgt_not_eq, ln_10_pos.
Qed.

Lemma Calzetti_optical_depth_witness :
  CalzettiExtinction_f (PNum 5000)
  = Ok (NScalar (-2.5 / ln 10 * Calzetti_Q (1e4 / 5000))) /\
  CalzettiExtinction_f (PArr [5000; 10000])
  = Ok (NArray (map (fun l => -2.5 / ln 10 * Calzetti_Q (1e4 / l)) [5000; 10000])) /\
  correctFlux (calzetti_law (NScalar 1)) (NScalar 3) (PNum 5000)
  = Ok (NScalar (3 * exp (- 1 * Calzetti_Q (1e4 / 5000)))).
Proof.
  assert (H5 : 5000 <> 0) by lra.
  assert (H1 : 10000 <> 0) by lra.
  split; [| split].
  - exact (proj1 Calzetti_optical_depth 5000 H5).
  - exact (proj1 (proj2 Calzetti_optical_depth) [5000; 10000]
             (Forall_cons (P := fun l => l <> 0) 5000 H5
                (Forall_cons (P := fun l => l <> 0) 10000 H1 (Forall_nil _)))).
  - exact (proj2 (proj2 Calzetti_optical_depth) 1 3 5000 H5).
Defined.

(** ** Spectrum correction: what the store keeps *)

Lemma store_deref_same (h : heap) (l : loc) :
  store h l (deref h l) = h.
Proof.
  revert l; induction h as [| t h IH]; intros l; simpl; [reflexivity |].
  destruct l; simpl; [reflexivity |].
  unfold deref in IH |- *; simpl. now rewrite IH.
Qed.

Lemma spectrum_eta (s : Spectrum) :
  mkSpectrum (sp_unit s) (sp_axis s) (sp_flux s) (sp_err s) = s.
Proof. now destruct s. Qed.

Lemma correctSpectrum_copy_appends (self : Extinction) (h : heap) (spec : loc) :
  exists s' : Spectrum,
    snd (correctSpectrum self h spec true) = (h ++ [s'])%list.
Proof.
  unfold correctSpectrum, copy.
  rewrite deref_app_new, store_app_new, deref_app_new.
  destruct (call self _) as [ext | e]; [| eexists; reflexivity].
  destruct (np_imul _ _) as [fl | e]; [| eexists; reflexivity].
  rewrite store_app_new, deref_app_new.
  destruct (np_imul _ _) as [er | e]; [| eexists; reflexivity].
  rewrite store_app_new, deref_app_new, store_app_new.
  eexists; reflexivity.
Qed.

(** With [newspec] true, whatever the outcome of the call (also when the
    law or the multiplication raises half way), the store is the old store
    followed by one new spectrum: every spectrum that existed before,
    the one passed in included, is as it was. *)
Theorem correctSpectrum_copy_preserves_store :
  forall (self : Extinction) (h : heap) (spec : loc),
    exists s' : Spectrum,
      snd (correctSpectrum self h spec true) = (h ++ [s'])%list /\
      forall l : loc,
        (l < List.length h)%nat ->
        deref (snd (correctSpectrum self h spec true)) l = deref h l.
Proof.
  intros self h spec.
  destruct (correctSpectrum_copy_appends self h spec) as [s' E].
  exists s'; split; [exact E |].
  intros l Hl; rewrite E; now apply deref_app_old.
Qed.

Lemma correctSpectrum_copy_preserves_store_witness :
  exists s' : Spectrum,
    snd (correctSpectrum abstract_law [sample_spectrum_nm] 0%nat true)
    = ([sample_spectrum_nm] ++ [s'])%list /\
    ((0 < 1)%nat ->
     deref (snd (correctSpectrum abstract_law [sample_spectrum_nm] 0%nat true)) 0%nat
     = sample_spectrum_nm).
Proof.
  destruct (correctSpectrum_copy_preserves_store abstract_law
              [sample_spectrum_nm] 0%nat) as [s' [E H]].
  exists s'; split; [exact E |].
  intros Hl; exact (H 0%nat Hl).
Defined.

(** With [newspec] false there is no such protection: when the law
    raises, the spectrum passed in is left with the working unit
    ['wavelength-angstrom'] instead of its own, flux and error
    untouched. *)
Theorem correctSpectrum_inplace_failure_keeps_working_unit :
  forall (self : Extinction) (h : heap) (spec : loc) (e : exn),
    (spec < List.length h)%nat ->
    call self (PArr (sp_axis (deref h spec) "wavelength-angstrom")) = Raise e ->
    correctSpectrum self h spec false
    = (Raise e, store h spec (set_unit (deref h spec) "wavelength-angstrom")) /\
    sp_unit (deref (snd (correctSpectrum self h spec false)) spec)
    = "wavelength-angstrom" /\
    sp_flux (deref (snd (correctSpectrum self h spec false)) spec)
    = sp_flux (deref h spec) /\
    sp_err (deref (snd (correctSpectrum self h spec false)) spec)
    = sp_err (deref h spec).
Proof.
  intros self h spec e Hl Hc.
  assert (E : correctSpectrum self h spec false
              = (Raise e, store h spec (set_unit (deref h spec) "wavelength-angstrom"))).
  { unfold correctSpectrum; cbv beta iota zeta.
    rewrite (deref_store _ _ _ Hl). spectrum_fields. now rewrite Hc. }
  rewrite E; cbn [snd]; rewrite (deref_store _ _ _ Hl).
  repeat split.
Qed.

Lemma correctSpectrum_inplace_failure_keeps_working_unit_witness :
  correctSpectrum abstract_law [sample_spectrum_nm] 0%nat false
  = (Raise NotImplementedError,
     [set_unit sample_spectrum_nm "wavelength-angstrom"]).
Proof.
  exact (proj1 (correctSpectrum_inplace_failure_keeps_working_unit
                  abstract_law [sample_spectrum_nm] 0%nat NotImplementedError
                  (le_n 1) eq_refl)).
Defined.

Lemma correctSpectrum_inplace_ok (self : Extinction) (h : heap) (spec : loc)
    (es : list R) :
  (spec < List.length h)%nat ->
  call self (PArr (sp_axis (deref h spec) "wavelength-angstrom")) = Ok (NArray es) ->
  List.length es = List.length (sp_flux (deref h spec)) ->
  List.length es = List.length (sp_err (deref h spec)) ->
  correctSpectrum self h spec false
  = (Ok spec,
     store h spec
       (mkSpectrum (sp_unit (deref h spec)) (sp_axis (deref h spec))
          (zipWith deredden (sp_flux (deref h spec)) es)
          (zipWith deredden (sp_err (deref h spec)) es))).
Proof.
  intros Hl Hcall Hfl Her.
  unfold correctSpectrum; cbv beta iota zeta.
  repeat (rewrite store_store || rewrite (deref_store _ _ _ Hl)).
  spectrum_fields. rewrite Hcall. spectrum_fields.
  rewrite (np_imul_array _ _ Hfl).
  repeat (rewrite store_store || rewrite (deref_store _ _ _ Hl)).
  spectrum_fields.
  rewrite (np_imul_array _ _ Her).
  repeat (rewrite store_store || rewrite (deref_store _ _ _ Hl)).
  reflexivity.
Qed.

Lemma deredden_undo (a : R) (vs ss : list R) :
  List.length ss = List.length vs ->
  zipWith deredden (zipWith deredden vs (map (Rmult a) ss)) (map (Rmult (- a)) ss)
  = vs.
Proof.
  revert ss; induction vs as [| v vs IH]; intros [| s ss] H; simpl in *;
    try reflexivity; try discriminate.
  rewrite IH by (injection H; auto). f_equal.
  unfold deredden. rewrite Rmult_assoc, <- pow10_plus.
  replace (a * s / 2.5 + - a * s / 2.5) with 0 by lra.
  rewrite pow10_0; lra.
Qed.

(** Reddening undoes dereddening: correcting a spectrum in place with the
    normalization [a] and then with [-a] gives back the store as it was,
    flux and error included. *)
Theorem correctSpectrum_opposite_normalizations :
  forall (self : Extinction) (h : heap) (spec : loc) (a : R) (ss : list R),
    (spec < List.length h)%nat ->
    A0 self = NScalar a ->
    self_f self (PArr (sp_axis (deref h spec) "wavelength-angstrom"))
    = Ok (NArray ss) ->
    List.length ss = List.length (sp_flux (deref h spec)) ->
    List.length ss = List.length (sp_err (deref h spec)) ->
    exists h1 : heap,
      correctSpectrum self h spec false = (Ok spec, h1) /\
      correctSpectrum (set_A0 self (NScalar (- a))) h1 spec false = (Ok spec, h).
Proof.
  intros self h spec a ss Hl Ha Hf Hfl Her.
  assert (C1 : call self (PArr (sp_axis (deref h spec) "wavelength-angstrom"))
               = Ok (NArray (map (Rmult a) ss))).
  { unfold call; rewrite Hf, Ha; reflexivity. }
  eexists; split.
  - apply (correctSpectrum_inplace_ok _ _ _ _ Hl C1);
      now rewrite length_map.
  - set (s1 := mkSpectrum _ _ _ _).
    assert (Hl1 : (spec < List.length (store h spec s1))%nat)
      by now rewrite store_length.
    assert (C2 : call (set_A0 self (NScalar (- a)))
                      (PArr (sp_axis (deref (store h spec s1) spec)
                                     "wavelength-angstrom"))
                 = Ok (NArray (map (Rmult (- a)) ss))).
    { rewrite (deref_store _ _ _ Hl); unfold call.
      rewrite self_f_set_A0; subst s1; cbn [sp_axis]; rewrite Hf; reflexivity. }
    rewrite (correctSpectrum_inplace_ok _ _ _ _ Hl1 C2).
    + rewrite (deref_store _ _ _ Hl), store_store; subst s1.
      cbn [sp_unit sp_axis sp_flux sp_err].
      rewrite !deredden_undo by congruence.
      now rewrite spectrum_eta, store_deref_same.
    + rewrite (deref_store _ _ _ Hl); subst s1; cbn [sp_flux].
      rewrite length_map, zipWith_length; rewrite ?length_map; congruence.
    + rewrite (deref_store _ _ _ Hl); subst s1; cbn [sp_err].
      rewrite length_map, zipWith_length; rewrite ?length_map; congruence.
Qed.

Lemma correctSpectrum_opposite_normalizations_witness :
  exists h1 : heap,
    correctSpectrum (inverse_law (NScalar 2)) [sample_spectrum] 0%nat false
    = (Ok 0%nat, h1) /\
    correctSpectrum (set_A0 (inverse_law (NScalar 2)) (NScalar (- 2))) h1 0%nat false
    = (Ok 0%nat, [sample_spectrum]).
Proof.
  exact (correctSpectrum_opposite_normalizations (inverse_law (NScalar 2))
           [sample_spectrum] 0%nat 2 [1e4 / 5000; 1e4 / 10000]
           (le_n 1) eq_refl eq_refl eq_refl eq_refl).
Defined.

(** ** Calibration: what a call changes, and what it achieves *)

(** A call of [computeA0FromFluxRatio] touches nothing but [A0]: the
    shape and the pipeline buffer of the law are the same afterwards.  If
    the call raises, [A0] too is what it was; if it returns, [A0] is the
    first returned value and the second is its standard deviation. *)
Theorem computeA0_changes_only_A0 :
  forall (self : Extinction) (measured expected lambda1 lambda2 : pyval)
         (ff : option (npval -> result npval)),
    let out := computeA0FromFluxRatio self measured expected lambda1 lambda2 ff in
    klass_f (snd out) = klass_f self /\
    attr_f (snd out) = attr_f self /\
    _plbuffer (snd out) = _plbuffer self /\
    (forall e, fst out = Raise e -> snd out = self) /\
    (forall a d, fst out = Ok (a, d) -> A0 (snd out) = a /\ d = np_std a).
Proof.
  intros self measured expected lambda1 lambda2 ff; cbv zeta.
  unfold computeA0FromFluxRatio.
  destruct (a <- resolve_expected measured expected lambda1 lambda2 ;;
            raw <- raw_A0 self a ;; apply_filter ff raw) as [a |e]; simpl;
    repeat split; try discriminate; try congruence.
Qed.

Lemma computeA0_changes_only_A0_witness :
  snd (computeA0FromFluxRatio (inverse_law (NScalar 1)) (PArr [3; 3.2])
                              (PNum 2.86) PNone PNone None)
  = inverse_law (NScalar 1).
Proof.
  exact (proj1 (proj2 (proj2 (proj2
           (computeA0_changes_only_A0 (inverse_law (NScalar 1)) (PArr [3; 3.2])
              (PNum 2.86) PNone PNone None))))
           TypeError eq_refl).
Defined.

Lemma balmer_collect_known (names : list string) :
  Forall (fun k => __balmerratios k <> None) names ->
  exists t, balmer_collect (map AStr names) = Ok t.
Proof.
  induction 1 as [| k names Hk _ [t IH]]; simpl.
  - eexists; reflexivity.
  - destruct (__balmerratios k) as [[[r0 l1] l2] |]; [| now elim Hk].
    simpl; rewrite IH; destruct t as [[? ?] ?]; simpl; eexists; reflexivity.
Qed.

Lemma balmer_collect_unknown (names : list string) :
  Exists (fun k => __balmerratios k = None) names ->
  balmer_collect (map AStr names) = Raise KeyError.
Proof.
  induction names as [| k names IH]; intros H; [inversion H |].
  simpl. destruct (__balmerratios k) as [[[r0 l1] l2] |] eqn:E; [| reflexivity].
  simpl. rewrite IH; [reflexivity |].
  inversion H; subst; [congruence | assumption].
Qed.

Lemma forallb_atom_is_str_names (names : list string) :
  forallb atom_is_str (map AStr names) = true.
Proof. induction names; simpl; auto. Qed.

(** A sequence of transition names never calibrates a law.  If one of
    the names is not in the table the call raises [KeyError]; if all are,
    the branch that collected their ratios has not bound [R], and the call
    raises [UnboundLocalError].  The law is unchanged in both cases. *)
Theorem computeA0_name_sequence_never_calibrates :
  forall (self : Extinction) (measured lambda1 lambda2 : pyval)
         (ff : option (npval -> result npval)) (name : string)
         (names : list string),
    (Forall (fun k => __balmerratios k <> None) (name :: names) ->
     computeA0FromFluxRatio self measured (PSeq (map AStr (name :: names)))
                            lambda1 lambda2 ff
     = (Raise (UnboundLocalError "R"), self)) /\
    (Exists (fun k => __balmerratios k = None) (name :: names) ->
     computeA0FromFluxRatio self measured (PSeq (map AStr (name :: names)))
                            lambda1 lambda2 ff
     = (Raise KeyError, self)).
Proof.
  intros self measured lambda1 lambda2 ff name names; split; intros H.
  - destruct (balmer_collect_known _ H) as [[[R0 l1] l2] E].
    unfold computeA0FromFluxRatio, resolve_expected.
    cbn [map index0 bind atom_is_str iter].
    change (AStr name :: map AStr names) with (map AStr (name :: names)).
    rewrite forallb_atom_is_str_names; cbn [negb]; rewrite E; reflexivity.
  - pose proof (balmer_collect_unknown _ H) as E.
    unfold computeA0FromFluxRatio, resolve_expected.
    cbn [map index0 bind atom_is_str iter].
    change (AStr name :: map AStr names) with (map AStr (name :: names)).
    rewrite forallb_atom_is_str_names; cbn [negb]; rewrite E; reflexivity.
Qed.

Lemma computeA0_name_sequence_never_calibrates_witness :
  computeA0FromFluxRatio (inverse_law (NScalar 1)) (PArr [3; 2.2])
                         (PSeq (map AStr ["Hab"; "Hbg"])) PNone PNone None
  = (Raise (UnboundLocalError "R"), inverse_law (NScalar 1)) /\
  computeA0FromFluxRatio (inverse_law (NScalar 1)) (PArr [3; 2.2])
                         (PSeq (map AStr ["Hab"; "Hxy"])) PNone PNone None
  = (Raise KeyError, inverse_law (NScalar 1)).
Proof.
  split.
  - refine (proj1 (computeA0_name_sequence_never_calibrates
                     (inverse_law (NScalar 1)) (PArr [3; 2.2]) PNone PNone None
                     "Hab" ["Hbg"]) _).
    repeat constructor; discriminate.
  - refine (proj2 (computeA0_name_sequence_never_calibrates
                     (inverse_law (NScalar 1)) (PArr [3; 2.2]) PNone PNone None
                     "Hab" ["Hxy"]) _).
    apply Exists_cons_tl, Exists_cons_hd; reflexivity.
Defined.

Lemma balmer_ratio_pos (key : string) (r0 l1 l2 : R) :
  __balmerratios key = Some (r0, l1, l2) -> 0 < r0.
Proof.
  unfold __balmerratios; intros H.
  repeat match type of H with
         | (if ?b then _ else _) = _ =>
             destruct b; [injection H as <- _ _; lra |]
         end.
  discriminate.
Qed.

(** What a calibration is for: after [computeA0FromFluxRatio] on the
    measured ratio [F1/F2] of a named pair of lines, correcting the two
    fluxes with the law gives the case-B ratio of the table. *)
Theorem calibrated_law_restores_expected_ratio :
  forall (self : Extinction) (key : string) (r0 l1 l2 s1 s2 F1 F2 : R)
         (lambda1 lambda2 : pyval),
    __balmerratios key = Some (r0, l1, l2) ->
    self_f self (PNum l1) = Ok (NScalar s1) ->
    self_f self (PNum l2) = Ok (NScalar s2) ->
    s1 <> s2 -> 0 < F1 -> 0 < F2 ->
    exists (a c1 c2 : R),
      computeA0FromFluxRatio self (PNum (F1 / F2)) (PStr key) lambda1 lambda2 None
      = (Ok (NScalar a, 0), set_A0 self (NScalar a)) /\
      correctFlux (set_A0 self (NScalar a)) (NScalar F1) (PNum l1) = Ok (NScalar c1) /\
      correctFlux (set_A0 self (NScalar a)) (NScalar F2) (PNum l2) = Ok (NScalar c2) /\
      c2 <> 0 /\ c1 / c2 = r0.
Proof.
  intros self key r0 l1 l2 s1 s2 F1 F2 lambda1 lambda2 Hk H1 H2 Hs HF1 HF2.
  pose proof (balmer_ratio_pos _ _ _ _ Hk) as Hr0.
  set (a := A0_term (F1 / F2) r0 s1 s2).
  exists a, (F1 * pow10 (a * s1 / 2.5)), (F2 * pow10 (a * s2 / 2.5)).
  assert (Hc2 : 0 < F2 * pow10 (a * s2 / 2.5))
    by (apply Rmult_lt_0_compat; [exact HF2 | apply pow10_pos]).
  split; [| split; [| split; [| split]]].
  - exact (computeA0_from_raw _ _ _ _ _ None _ _ (NScalar a)
             (resolve_named _ _ _ _ _ _ _ Hk)
             (raw_A0_scalar_scalar _ _ _ _ _ _ _ H1 H2) eq_refl).
  - unfold correctFlux, call; cbn [bind]; rewrite self_f_set_A0, H1; reflexivity.
  - unfold correctFlux, call; cbn [bind]; rewrite self_f_set_A0, H2; reflexivity.
  - lra.
  - assert (Hq : 0 < F1 / F2 / r0).
    { apply Rdiv_lt_0_compat; [apply Rdiv_lt_0_compat |]; assumption. }
    assert (E : pow10 (a * s1 / 2.5) = pow10 (a * s2 / 2.5) * (r0 / (F1 / F2))).
    { replace (a * s1 / 2.5) with (a * s2 / 2.5 + - log10 (F1 / F2 / r0)).
      - rewrite pow10_plus. f_equal.
        apply Rmult_eq_reg_l with (pow10 (log10 (F1 / F2 / r0))).
        + rewrite <- pow10_plus.
          replace (log10 (F1 / F2 / r0) + - log10 (F1 / F2 / r0)) with 0 by lra.
          rewrite pow10_0, (pow10_log10 _ Hq). field; lra.
        + apply Rgt_not_eq, pow10_pos.
      - subst a; unfold A0_term.
        assert (Hd : s1 - s2 <> 0) by lra.
        generalize (log10 (F1 / F2 / r0)); intros L.
        replace (-2.5) with (- (5 / 2)) by lra.
        replace 2.5 with (5 / 2) by lra.
        field; exact Hd. }
    rewrite E; clear E.
    revert Hc2; generalize (pow10 (a * s2 / 2.5)); intros p Hp.
    assert (p <> 0) by (intros ->; lra).
    field; repeat split; lra.
Qed.

Lemma calibrated_law_restores_expected_ratio_witness :
  exists (a c1 c2 : R),
    computeA0FromFluxRatio (inverse_law (NScalar 1)) (PNum (3.4 / 1)) (PStr "Hab")
                           PNone PNone None
    = (Ok (NScalar a, 0), set_A0 (inverse_law (NScalar 1)) (NScalar a)) /\
    correctFlux (set_A0 (inverse_law (NScalar 1)) (NScalar a)) (NScalar 3.4)
                (PNum 6562.82) = Ok (NScalar c1) /\
    correctFlux (set_A0 (inverse_law (NScalar 1)) (NScalar a)) (NScalar 1)
                (PNum 4861.33) = Ok (NScalar c2) /\
    c2 <> 0 /\ c1 / c2 = 2.86.
Proof.
  assert (Hs : 1e4 / 6562.82 <> 1e4 / 4861.33) by lra.
  assert (H1 : 0 < 3.4) by lra.
  assert (H2 : 0 < 1) by lra.
  exact (calibrated_law_restores_expected_ratio (inverse_law (NScalar 1)) "Hab"
           2.86 6562.82 4861.33 (1e4 / 6562.82) (1e4 / 4861.33) 3.4 1
           PNone PNone eq_refl eq_refl eq_refl Hs H1 H2).
Defined.

(** ** The pipeline: order and growth of the queues *)

Lemma plFeed_spectrum (self : Extinction) (l : loc) (src : pyval) :
  fst (_plFeed self (DSpectrum l) src) = Ok tt /\
  pending (snd (_plFeed self (DSpectrum l) src))
  = (pending self ++ [("spec", l)])%list /\
  ready (snd (_plFeed self (DSpectrum l) src)) = ready self.
Proof.
  unfold _plFeed, ensure_plbuffer, pending, ready.
  destruct (_plbuffer self) as [b |] eqn:E; simpl; rewrite ?E; repeat split.
Qed.

(** Feeding spectra queues them in the order of the calls, behind what
    was pending, and leaves the ready queue alone; feeding anything that
    is not a spectrum raises [PipelineError] and changes neither queue. *)
Theorem plFeed_order :
  forall (self : Extinction) (src : pyval),
    (forall ls : list loc,
        let self' :=
          fold_left (fun s l => snd (_plFeed s (DSpectrum l) src)) ls self in
        pending self' = (pending self ++ map (fun l => ("spec", l)) ls)%list /\
        ready self' = ready self) /\
    (forall v : pyval,
        fst (_plFeed self (DOther v) src)
        = Raise (PipelineError "unrecognized Extinction correction input data") /\
        pending (snd (_plFeed self (DOther v) src)) = pending self /\
        ready (snd (_plFeed self (DOther v) src)) = ready self).
Proof.
  intros self src; split.
  - intros ls; cbv zeta; revert self.
    induction ls as [| l ls IH]; intros self; simpl.
    + now rewrite app_nil_r.
    + destruct (plFeed_spectrum self l src) as [_ [Hp Hr]].
      destruct (IH (snd (_plFeed self (DSpectrum l) src))) as [IHp IHr].
      rewrite IHp, IHr, Hp, Hr, <- app_assoc; split; reflexivity.
  - intros v; unfold _plFeed, ensure_plbuffer, pending, ready.
    destruct (_plbuffer self) as [b |] eqn:E; simpl; rewrite ?E; repeat split.
Qed.

Lemma plProcess_appends (self : Extinction) (h : heap) :
  exists (outs : list loc) (hs : heap),
    ready (snd (fst (_plProcess self h))) = (ready self ++ outs)%list /\
    snd (_plProcess self h) = (h ++ hs)%list.
Proof.
  unfold _plProcess, ensure_plbuffer, ready.
  destruct (_plbuffer self) as [[pin pout] |] eqn:B; cbn [pl_in pl_out].
  - destruct pin as [| [type data] rest].
    + exists [], []; simpl; now rewrite B, !app_nil_r.
    + destruct (String.eqb type "spec").
      * rewrite correctSpectrum_buffer_irrelevant.
        destruct (correctSpectrum_copy_appends self h data) as [s' E].
        destruct (correctSpectrum self h data true) as [[newspec | e] h'];
          simpl in E; subst h'.
        -- exists [newspec], [s']; simpl; auto.
        -- exists [], [s']; simpl; now rewrite app_nil_r.
      * exists [], []; simpl; now rewrite !app_nil_r.
  - exists [], []; simpl; now rewrite app_nil_r.
Qed.

Lemma plstep_appends (st : Extinction * heap) (op : plop) :
  exists (outs : list loc) (hs : heap),
    ready (fst (plstep st op)) = (ready (fst st) ++ outs)%list /\
    snd (plstep st op) = (snd st ++ hs)%list.
Proof.
  destruct st as [self h]; destruct op as [data | |]; cbn [plstep fst snd].
  - exists [], []; rewrite !app_nil_r; split; [| reflexivity].
    destruct data as [l | v].
    + apply (plFeed_spectrum self l PNone).
    + unfold _plFeed, ensure_plbuffer, ready.
      destruct (_plbuffer self) eqn:E; simpl; rewrite ?E; reflexivity.
  - destruct (plProcess_appends self h) as [outs [hs [Hr Hh]]].
    destruct (_plProcess self h) as [[r self'] h']; simpl in *.
    exists outs, hs; auto.
  - exists [], []; rewrite !app_nil_r; split; [| reflexivity].
    unfold _plExtract, ensure_plbuffer, ready.
    destruct (_plbuffer self) eqn:E; simpl; rewrite ?E; reflexivity.
Qed.

(** However a driver interleaves feed, process and extract, the ready
    queue and the store of spectra only grow: no corrected spectrum ever
    leaves the ready queue, and no spectrum in the store is replaced. *)
Theorem pipeline_only_appends :
  forall (ops : list plop) (st : Extinction * heap),
    exists (outs : list loc) (hs : heap),
      ready (fst (plrun st ops)) = (ready (fst st) ++ outs)%list /\
      snd (plrun st ops) = (snd st ++ hs)%list.
Proof.
  unfold plrun; induction ops as [| op ops IH]; intros st; simpl.
  - exists [], []; now rewrite !app_nil_r.
  - destruct (plstep_appends st op) as [o1 [h1 [Hr1 Hh1]]].
    destruct (IH (plstep st op)) as [o2 [h2 [Hr2 Hh2]]].
    exists (o1 ++ o2)%list, (h1 ++ h2)%list.
    now rewrite Hr2, Hh2, Hr1, Hh1, !app_assoc.
Qed.

(** ** Laws normalised by E(B-V): construction and the V band *)

(** The meaning of the colour excess: after [EBmV] is set to [c], the
    extinction of the law at the V band is [Rv * c]. *)
Theorem EBmV_gives_Av :
  forall (lambdaV : R) (self : EBmVExtinction) (s c : R),
    self_f (base self) (PNum lambdaV) = Ok (NScalar s) ->
    s <> 0 ->
    exists (self' : EBmVExtinction) (av : R),
      _setEBmV lambdaV self (NScalar c) = Ok self' /\
      Rv self' = Rv self /\
      call (base self') (PNum lambdaV) = Ok (NScalar av) /\
      av = Rv self * c.
Proof.
  intros lambdaV self s c Hf Hs.
  eexists; eexists; split; [| split; [| split]].
  - unfold _setEBmV; simpl; rewrite Hf; simpl; reflexivity.
  - reflexivity.
  - unfold call; simpl; rewrite self_f_set_A0, Hf; simpl; reflexivity.
  - field; exact Hs.
Qed.

Lemma EBmV_gives_Av_witness :
  exists (self' : EBmVExtinction) (av : R),
    _setEBmV 5500 (mkEBmV (inverse_law (NScalar 1)) 3.1) (NScalar 0.5) = Ok self' /\
    Rv self' = 3.1 /\
    call (base self') (PNum 5500) = Ok (NScalar av) /\
    av = 3.1 * 0.5.
Proof.
  assert (Hs : 1e4 / 5500 <> 0) by lra.
  exact (EBmV_gives_Av 5500 (mkEBmV (inverse_law (NScalar 1)) 3.1)
           (1e4 / 5500) 0.5 eq_refl Hs).
Defined.

(** The two abstract classes.  [Extinction()] can be created but cannot
    be evaluated; [_EBmVExtinction()] cannot even be created, because its
    initializer sets [EBmV] and the setter evaluates the missing [f]. *)
Theorem abstract_laws :
  (exists law : Extinction,
      Extinction__init__ Extinction_f (OVal PNone) (NScalar 1) = Ok law /\
      forall lamb, call law lamb = Raise NotImplementedError) /\
  (forall (lambdaV : R) (EBmV : npval) (Rv : R),
      EBmVExtinction__init__ lambdaV EBmVExtinction_f EBmV Rv
      = Raise NotImplementedError).
Proof.
  split.
  - eexists; split; [reflexivity | intros lamb; reflexivity].
  - intros lambdaV EBmV Rv; unfold EBmVExtinction__init__, _setEBmV; simpl.
    destruct EBmV; reflexivity.
Qed.

Lemma FM_base_lower (C1 C2 C3 x0 gamma x : R) :
  0 <= C3 -> C1 + C2 * x <= FM_base C1 C2 C3 x0 gamma x.
Proof.
  intros H3; unfold FM_base; cbv zeta.
  assert (0 <= / (((x * x - x0 * x0) ^ 2 + x * x * gamma * gamma) ^ 2)).
  { set (q := (x * x - x0 * x0) ^ 2 + x * x * gamma * gamma).
    destruct (Req_dec q 0) as [-> | Hq].
    - replace (0 ^ 2) with 0 by (simpl; lra). rewrite Rinv_0; lra.
    - left; apply Rinv_0_lt_compat. simpl; nra. }
  assert (0 <= x * x) by nra.
  assert (0 <= C3 * (x * x * / (((x * x - x0 * x0) ^ 2 + x * x * gamma * gamma) ^ 2))).
  { apply Rmult_le_pos; [exact H3 | apply Rmult_le_pos; assumption]. }
  lra.
Qed.

Lemma FM_far_uv_nonneg (C4 x : R) : 0 <= C4 -> 5.9 <= x -> 0 <= FM_far_uv C4 x.
Proof.
  intros H4 Hx; unfold FM_far_uv.
  assert (0 <= x - 5.9) by lra.
  assert (0 <= (x - 5.9) ^ 2) by (simpl; nra).
  assert (0 <= (x - 5.9) ^ 3) by (simpl; nra).
  nra.
Qed.

Lemma FM_shape_positive (C1 C2 C3 C4 x0 gamma Rv lamb : R) :
  0 <= C3 -> 0 <= C4 ->
  0 < C1 + C2 * (1e4 / lamb) + Rv ->
  0 < FM_shape C1 C2 C3 C4 x0 gamma Rv lamb.
Proof.
  intros H3 H4 H; unfold FM_shape; cbv zeta.
  pose proof (FM_base_lower C1 C2 C3 x0 gamma (1e4 / lamb) H3) as Hb.
  unfold Rgeb; destruct (Rleb_cases 5.9 (1e4 / lamb)) as [[Hx ->] | [Hx ->]].
  - pose proof (FM_far_uv_nonneg C4 _ H4 Hx). lra.
  - lra.
Qed.

Lemma EBmV_init_ok (lambdaV : R) (cls_f : pyval -> result npval) (s e rv : R) :
  cls_f (PNum lambdaV) = Ok (NScalar s) -> s <> 0 -> rv <> 0 ->
  EBmVExtinction__init__ lambdaV cls_f (NScalar e) rv
  = Ok (mkEBmV (mkExtinction cls_f None (NScalar (rv * e / s)) None) rv) /\
  _getEBmV lambdaV (mkEBmV (mkExtinction cls_f None (NScalar (rv * e / s)) None) rv)
  = Ok (NScalar e).
Proof.
  intros Hf Hs Hr; split.
  - unfold EBmVExtinction__init__, _setEBmV, self_f; simpl; rewrite Hf; reflexivity.
  - unfold _getEBmV, self_f; simpl; rewrite Hf; simpl.
    do 2 f_equal; field; auto.
Qed.

(** Creating a law of the Fitzpatrick-Massa family, at a positive V
    wavelength and a non-zero [gamma].  When [C3] and [C4] are not
    negative and [C1 + C2*x_V + Rv] is positive, the shape at the V band
    is positive, the initializer succeeds, and the new law reports the
    colour excess it was given.  This covers [LMCExtinction] for every
    [Rv > 0.89], and [SMCExtinction] for a V wavelength of at most one
    micron and [Rv >= 2.74]. *)
Theorem FM_laws_construct :
  (forall lambdaV C1 C2 C3 C4 x0 gamma e Rv : R,
      0 < lambdaV -> gamma <> 0 ->
      0 <= C3 -> 0 <= C4 -> 0 < C1 + C2 * (1e4 / lambdaV) + Rv -> Rv <> 0 ->
      exists law : EBmVExtinction,
        FMExtinction__init__ lambdaV C1 C2 C3 C4 x0 gamma (NScalar e) Rv = Ok law /\
        _getEBmV lambdaV law = Ok (NScalar e)) /\
  (forall lambdaV e Rv : R,
      0 < lambdaV -> 0.89 < Rv ->
      exists law : EBmVExtinction,
        LMCExtinction__init__ lambdaV (NScalar e) Rv = Ok law /\
        _getEBmV lambdaV law = Ok (NScalar e)) /\
  (forall lambdaV e Rv : R,
      0 < lambdaV <= 1e4 -> 2.74 <= Rv ->
      exists law : EBmVExtinction,
        SMCExtinction__init__ lambdaV (NScalar e) Rv = Ok law /\
        _getEBmV lambdaV law = Ok (NScalar e)).
Proof.
  assert (G : forall lambdaV C1 C2 C3 C4 x0 gamma e Rv : R,
             0 < lambdaV -> gamma <> 0 ->
             0 <= C3 -> 0 <= C4 -> 0 < C1 + C2 * (1e4 / lambdaV) + Rv -> Rv <> 0 ->
             exists law : EBmVExtinction,
               FMExtinction__init__ lambdaV C1 C2 C3 C4 x0 gamma (NScalar e) Rv
               = Ok law /\
               _getEBmV lambdaV law = Ok (NScalar e)).
  { intros lambdaV C1 C2 C3 C4 x0 gamma e Rv _ _ H3 H4 H HRv.
    pose proof (FM_shape_positive C1 C2 C3 C4 x0 gamma Rv lambdaV H3 H4 H) as Hp.
    destruct (EBmV_init_ok lambdaV (FMExtinction_f C1 C2 C3 C4 x0 gamma Rv)
                _ e Rv (FM_f_scalar _ _ _ _ _ _ _ _)
                (Rgt_not_eq _ _ Hp) HRv) as [E1 E2].
    eexists; split; [exact E1 | exact E2]. }
  split; [exact G | split].
  - intros lambdaV e Rv Hl HRv; unfold LMCExtinction__init__.
    assert (0 < 1e4 / lambdaV) by (apply Rdiv_lt_0_compat; lra).
    apply G; lra.
  - intros lambdaV e Rv [Hl Hu] HRv; unfold SMCExtinction__init__.
    assert (1 <= 1e4 / lambdaV).
    { apply Rmult_le_reg_r with lambdaV; [exact Hl |].
      replace (1e4 / lambdaV * lambdaV) with 1e4 by (field; lra). lra. }
    apply G; lra.
Qed.

Lemma FM_laws_construct_witness :
  exists law : EBmVExtinction,
    LMCExtinction__init__ 5500 (NScalar 0.3) 3.41 = Ok law /\
    _getEBmV 5500 law = Ok (NScalar 0.3).
Proof.
  assert (H1 : 0 < 5500) by lra.
  assert (H2 : 0.89 < 3.41) by lra.
  exact (proj1 (proj2 FM_laws_construct) 5500 0.3 3.41 H1 H2).
Defined.

Lemma ccm_shape_at_V (Rv lamb : R) :
  1e4 / lamb = 1.82 -> ccm_shape Rv lamb = 1.
Proof.
  intros H; unfold ccm_shape, ccm_a, ccm_b; rewrite H.
  split_Rleb. unfold polyval; simpl. lra.
Qed.

(** The CCM law is normalised at [x = 1.82]: there [a = 1] and [b = 0],
    so the shape is 1 for every [Rv].  A [CardelliExtinction] whose V band
    lies there is therefore created with [A0 = Rv * EBmV], the extinction
    in V, and its value at any wavelength of the range is that [A0] times
    [a(x) + b(x)/Rv]. *)
Theorem Cardelli_normalised_at_V :
  forall (lambdaV Rv e : R) (junk_a junk_b : nat -> R),
    1e4 / lambdaV = 1.82 -> Rv <> 0 ->
    CardelliExtinction_f Rv junk_a junk_b (PNum lambdaV) = Ok (NScalar 1) /\
    exists (law : EBmVExtinction) (a0 : R),
      CardelliExtinction__init__ lambdaV junk_a junk_b (NScalar e) Rv = Ok law /\
      A0 (base law) = NScalar a0 /\ a0 = Rv * e /\
      _getEBmV lambdaV law = Ok (NScalar e) /\
      forall lamb : R,
        ccm_in_range lamb ->
        call (base law) (PNum lamb)
        = Ok (NScalar (a0 * (ccm_a (1e4 / lamb) + ccm_b (1e4 / lamb) / Rv))).
Proof.
  intros lambdaV Rv e ja jb HV HRv.
  assert (Hin : ccm_in_range lambdaV) by (unfold ccm_in_range; lra).
  assert (Hf : CardelliExtinction_f Rv ja jb (PNum lambdaV) = Ok (NScalar 1)).
  { rewrite (CCM_f_scalar_in _ _ _ _ Hin), (ccm_shape_at_V _ _ HV); reflexivity. }
  split; [exact Hf |].
  assert (H1 : (1 : R) <> 0) by lra.
  destruct (EBmV_init_ok lambdaV (CardelliExtinction_f Rv ja jb) 1 e Rv Hf H1 HRv)
    as [E1 E2].
  eexists; exists (Rv * e / 1); split; [exact E1 | split; [reflexivity |]].
  split; [field | split; [exact E2 |]].
  intros lamb Hl; unfold call, self_f; cbn [base attr_f klass_f A0 bind].
  rewrite (CCM_f_scalar_in _ _ _ _ Hl); reflexivity.
Qed.

Lemma Cardelli_normalised_at_V_witness :
  CardelliExtinction_f 3.1 (fun _ => 0) (fun _ => 0) (PNum (1e4 / 1.82))
  = Ok (NScalar 1).
Proof.
  assert (H1 : 1e4 / (1e4 / 1.82) = 1.82) by lra.
  assert (H2 : 3.1 <> 0) by lra.
  exact (proj1 (Cardelli_normalised_at_V (1e4 / 1.82) 3.1 0.5
                  (fun _ => 0) (fun _ => 0) H1 H2)).
Defined.

(** ** The deprecated function extinction_correction *)

Lemma exttype_MW (exttype : string) :
  exttype <> "LMC" -> exttype <> "SMC" ->
  String.eqb exttype "LMC" = false /\ String.eqb exttype "SMC" = false.
Proof. intros H1 H2; split; now apply String.eqb_neq. Qed.

Lemma compress_no_flux (n : nat) (xs : list R) :
  compress (map is_flux (repeat None n)) xs = [].
Proof.
  revert xs; induction n as [| n IH]; intros [| x xs]; simpl; auto.
Qed.

Lemma scatter_no_flux (n : nat) (vs xs : list R) :
  scatter (map is_flux (repeat None n)) vs xs = xs.
Proof.
  revert xs; induction n as [| n IH]; intros [| x xs]; simpl; auto.
  now rewrite IH.
Qed.

Lemma fluxes_no_flux (n : nat) : fluxes (repeat None n) = [].
Proof. induction n; simpl; auto. Qed.

Lemma zipWith_repeat_r (op : R -> R -> R) (xs : list R) (y : R) :
  zipWith op xs (repeat y (List.length xs)) = map (fun x => op x y) xs.
Proof. induction xs as [| x xs IH]; simpl; [reflexivity | now rewrite IH]. Qed.

Lemma stretch_same {A : Type} (xs : list A) (msg : string) :
  (2 <= List.length xs)%nat -> stretch (List.length xs) xs msg = Ok xs.
Proof.
  intros H; unfold stretch.
  destruct xs as [| x [| y xs]]; simpl in H; try lia.
  now rewrite Nat.eqb_refl.
Qed.

(** For the Milky Way (any [exttype] other than ['LMC'] and ['SMC']), a
    non-zero [Rv] and [lineflux] [None], [extinction_correction] returns
    the extinction [Rv*EBmV] times the CCM curve [a(x) + b(x)/Rv] that
    [CardelliExtinction.f] computes: as a scalar for a scalar wavelength,
    elementwise for an array of two or more wavelengths. *)
Theorem extinction_correction_Alambda :
  forall (bandwl : string -> option R) (lambdaV Rv e : R) (exttype : string)
         (junk_a junk_b : nat -> R),
    exttype <> "LMC" -> exttype <> "SMC" -> Rv <> 0 ->
    (forall w : R,
        ccm_in_range w ->
        exists s : R,
          CardelliExtinction_f Rv junk_a junk_b (PNum w) = Ok (NScalar s) /\
          extinction_correction bandwl lambdaV LNone (WValue (NScalar w))
                                (NScalar e) Rv exttype
          = Ok (NScalar (s * Rv * e))) /\
    (forall ws : list R,
        (2 <= List.length ws)%nat ->
        Forall ccm_in_range ws ->
        exists ss : list R,
          CardelliExtinction_f Rv junk_a junk_b (PArr ws) = Ok (NArray ss) /\
          extinction_correction bandwl lambdaV LNone (WValue (NArray ws))
                                (NScalar e) Rv exttype
          = Ok (NArray (map (fun s => s * Rv * e) ss))).
Proof.
  intros bandwl lambdaV Rv e exttype ja jb H1 H2 _.
  destruct (exttype_MW _ H1 H2) as [E1 E2].
  split.
  - intros w Hw.
    exists (ccm_shape Rv w); split; [now apply CCM_f_scalar_in |].
    assert (Hl : Forall ccm_in_range [w]) by (constructor; [exact Hw | constructor]).
    unfold extinction_correction; rewrite E1, E2.
    cbn [bind atleast_1d_num map List.length Nat.max Nat.eqb].
    change [1e4 / w] with (map (Rdiv 1e4) [w]).
    rewrite (ccm_in_range_test _ Hl), (ccm_values _ _ _ _ Hl).
    reflexivity.
  - intros ws Hn Hws.
    exists (map (ccm_shape Rv) ws); split; [now apply CCM_f_array_in |].
    unfold extinction_correction; rewrite E1, E2.
    cbn [bind atleast_1d_num map List.length].
    assert (En : Nat.max 1 (Nat.max (List.length ws) 1) = List.length ws) by lia.
    rewrite En.
    assert (En1 : Nat.eqb (List.length ws) 1 = false) by (apply Nat.eqb_neq; lia).
    rewrite En1.
    rewrite (stretch_same ws _ Hn).
    cbn [stretch bind].
    rewrite (ccm_in_range_test _ Hws), (ccm_values _ _ _ _ Hws).
    rewrite broadcast_same_length
      by now rewrite !length_map, repeat_length.
    cbn [bind].
    rewrite fluxes_no_flux, compress_no_flux; cbn [map broadcast List.length Nat.eqb bind zipWith].
    rewrite scatter_no_flux.
    rewrite <- (length_map (ccm_shape Rv) ws) at 1.
    rewrite <- (length_map (fun t => t * Rv) (map (ccm_shape Rv) ws)).
    rewrite zipWith_repeat_r, !map_map; reflexivity.
Qed.

Lemma extinction_correction_Alambda_witness :
  exists s : R,
    CardelliExtinction_f 3.1 (fun _ => 0) (fun _ => 0) (PNum 5000) = Ok (NScalar s) /\
    extinction_correction sample_bandwl 5500 LNone (WValue (NScalar 5000))
                          (NScalar 0.5) 3.1 "MW"
    = Ok (NScalar (s * 3.1 * 0.5)).
Proof.
  assert (H1 : "MW" <> "LMC") by discriminate.
  assert (H2 : "MW" <> "SMC") by discriminate.
  assert (H3 : ccm_in_range 5000) by (unfold ccm_in_range; lra).
  assert (H4 : 3.1 <> 0) by lra.
  exact (proj1 (extinction_correction_Alambda sample_bandwl 5500 3.1 0.5 "MW"
                  (fun _ => 0) (fun _ => 0) H1 H2 H4) 5000 H3).
Defined.

Lemma pow10_magnitude (v A : R) :
  0 < v -> pow10 ((-2.5 * log10 v - A) / -2.5) = v * pow10 (A / 2.5).
Proof.
  intros Hv.
  replace ((-2.5 * log10 v - A) / -2.5) with (log10 v + A / 2.5) by lra.
  now rewrite pow10_plus, pow10_log10.
Qed.

(** For a positive flux the same call returns the flux times
    [10**(Al/2.5)], with [Al] the extinction above: this is what
    [correctFlux] returns for a [CardelliExtinction] law whose
    normalization is [Rv*EBmV]. *)
Theorem extinction_correction_flux :
  forall (bandwl : string -> option R) (lambdaV Rv e w v : R) (exttype : string)
         (junk_a junk_b : nat -> R),
    exttype <> "LMC" -> exttype <> "SMC" -> Rv <> 0 ->
    ccm_in_range w -> 0 < v ->
    exists c c' : R,
      extinction_correction bandwl lambdaV (LFlux (NScalar v))
                            (WValue (NScalar w)) (NScalar e) Rv exttype
      = Ok (NScalar c) /\
      correctFlux (mkExtinction (CardelliExtinction_f Rv junk_a junk_b) None
                                (NScalar (Rv * e)) None)
                  (NScalar v) (PNum w)
      = Ok (NScalar c') /\
      c = c' /\
      c = v * pow10 (ccm_shape Rv w * Rv * e / 2.5).
Proof.
  intros bandwl lambdaV Rv e w v exttype ja jb H1 H2 _ Hw Hv.
  destruct (exttype_MW _ H1 H2) as [E1 E2].
  assert (Hl : Forall ccm_in_range [w]) by (constructor; [exact Hw | constructor]).
  eexists; eexists; split; [| split; [| split]].
  - unfold extinction_correction; rewrite E1, E2.
    cbn [bind atleast_1d_num map List.length Nat.max Nat.eqb].
    change [1e4 / w] with (map (Rdiv 1e4) [w]).
    rewrite (ccm_in_range_test _ Hl), (ccm_values _ _ _ _ Hl).
    reflexivity.
  - unfold correctFlux, call, self_f; cbn [attr_f klass_f A0 bind].
    rewrite (CCM_f_scalar_in _ _ _ _ Hw); reflexivity.
  - rewrite (pow10_magnitude _ _ Hv). f_equal. f_equal. lra.
  - now rewrite (pow10_magnitude _ _ Hv).
Qed.

Lemma extinction_correction_flux_witness :
  exists c c' : R,
    extinction_correction sample_bandwl 5500 (LFlux (NScalar 2))
                          (WValue (NScalar 5000)) (NScalar 0.5) 3.1 "MW"
    = Ok (NScalar c) /\
    correctFlux (mkExtinction (CardelliExtinction_f 3.1 (fun _ => 0) (fun _ => 0))
                              None (NScalar (3.1 * 0.5)) None)
                (NScalar 2) (PNum 5000)
    = Ok (NScalar c') /\
    c = c' /\
    c = 2 * pow10 (ccm_shape 3.1 5000 * 3.1 * 0.5 / 2.5).
Proof.
  assert (H1 : "MW" <> "LMC") by discriminate.
  assert (H2 : "MW" <> "SMC") by discriminate.
  assert (H3 : ccm_in_range 5000) by (unfold ccm_in_range; lra).
  assert (H4 : 0 < 2) by lra.
  assert (H5 : 3.1 <> 0) by lra.
  exact (extinction_correction_flux sample_bandwl 5500 3.1 0.5 5000 2 "MW"
           (fun _ => 0) (fun _ => 0) H1 H2 H5 H3 H4).
Defined.

Lemma stretch_wrong {A : Type} (n : nat) (xs : list A) (msg : string) :
  (2 <= List.length xs)%nat -> List.length xs <> n ->
  stretch n xs msg = Raise (ValueError msg).
Proof.
  intros H Hn; unfold stretch.
  destruct xs as [| x [| y xs]]; simpl in H; try lia.
  apply Nat.eqb_neq in Hn; now rewrite Hn.
Qed.

(** The errors of [extinction_correction] for the Milky Way.  An unknown
    band name is a [KeyError]; arrays of fluxes and of wavelengths of
    different lengths (two or more each) are a [ValueError] that names the
    shorter one; a wavelength outside the CCM range is the [ValueError] of
    the range, whatever the flux. *)
Theorem extinction_correction_errors :
  forall (bandwl : string -> option R) (lambdaV Rv : R) (EBmV : R)
         (exttype : string),
    exttype <> "LMC" -> exttype <> "SMC" ->
    (forall (lineflux : lineflux_arg) (name : string),
        bandwl name = None ->
        extinction_correction bandwl lambdaV lineflux (WName name)
                              (NScalar EBmV) Rv exttype
        = Raise KeyError) /\
    (forall fs ws : list R,
        (2 <= List.length fs)%nat -> (2 <= List.length ws)%nat ->
        ((List.length fs < List.length ws)%nat ->
         extinction_correction bandwl lambdaV (LFlux (NArray fs))
                               (WValue (NArray ws)) (NScalar EBmV) Rv exttype
         = Raise (ValueError "lineflux is incorrect length")) /\
        ((List.length ws < List.length fs)%nat ->
         extinction_correction bandwl lambdaV (LFlux (NArray fs))
                               (WValue (NArray ws)) (NScalar EBmV) Rv exttype
         = Raise (ValueError "linewl is incorrect length"))) /\
    (forall (lineflux : lineflux_arg) (w : R),
        ~ ccm_in_range w ->
        (forall v, lineflux <> LFlux (NArray v)) ->
        extinction_correction bandwl lambdaV lineflux (WValue (NScalar w))
                              (NScalar EBmV) Rv exttype
        = Raise ccm_range_error).
Proof.
  intros bandwl lambdaV Rv EBmV exttype H1 H2.
  destruct (exttype_MW _ H1 H2) as [E1 E2].
  split; [| split].
  - intros lineflux name Hn.
    unfold extinction_correction; rewrite E1, E2, Hn; reflexivity.
  - intros fs ws Hf Hw; split; intros Hlt.
    + unfold extinction_correction; rewrite E1, E2.
      cbn [bind atleast_1d_num map List.length].
      rewrite length_map.
      replace (Nat.max (List.length fs) (Nat.max (List.length ws) 1))
        with (List.length ws) by lia.
      replace (Nat.eqb (List.length ws) 1) with false
        by (symmetry; apply Nat.eqb_neq; lia).
      rewrite stretch_wrong; [reflexivity | now rewrite length_map |].
      rewrite length_map; lia.
    + unfold extinction_correction; rewrite E1, E2.
      cbn [bind atleast_1d_num map List.length].
      rewrite length_map.
      replace (Nat.max (List.length fs) (Nat.max (List.length ws) 1))
        with (List.length fs) by lia.
      replace (Nat.eqb (List.length fs) 1) with false
        by (symmetry; apply Nat.eqb_neq; lia).
      rewrite <- (length_map (@Some R) fs) at 1.
      rewrite stretch_same by now rewrite length_map.
      cbn [bind].
      rewrite stretch_wrong; [reflexivity | exact Hw | lia].
  - intros lineflux w Hw Hsc.
    assert (Hx : Exists (fun l => ~ ccm_in_range l) [w])
      by (apply Exists_cons_hd; exact Hw).
    assert (El : exists f0, (match lineflux with
                             | LNone | LFalse => [None]
                             | LFlux v => map Some (atleast_1d_num v)
                             end) = [f0]).
    { destruct lineflux as [| | [r | r | l]]; try (eexists; reflexivity).
      now elim (Hsc l). }
    destruct El as [f0 El].
    unfold extinction_correction; rewrite E1, E2.
    cbn [bind atleast_1d_num]. rewrite El.
    cbn [bind map List.length Nat.max Nat.eqb].
    change [1e4 / w] with (map (Rdiv 1e4) [w]).
    now rewrite (ccm_out_of_range_test _ Hx).
Qed.

Lemma extinction_correction_errors_witness :
  extinction_correction sample_bandwl 5500 LNone (WName "K") (NScalar 0.5) 3.1 "MW"
  = Raise KeyError /\
  extinction_correction sample_bandwl 5500 (LFlux (NArray [1; 2]))
                        (WValue (NArray [5000; 6000; 7000])) (NScalar 0.5) 3.1 "MW"
  = Raise (ValueError "lineflux is incorrect length") /\
  extinction_correction sample_bandwl 5500 LNone (WValue (NScalar 909))
                        (NScalar 0.5) 3.1 "MW"
  = Raise ccm_range_error.
Proof.
  assert (H1 : "MW" <> "LMC") by discriminate.
  assert (H2 : "MW" <> "SMC") by discriminate.
  assert (H : ~ ccm_in_range 909) by (unfold ccm_in_range; lra).
  pose proof (extinction_correction_errors sample_bandwl 5500 3.1 0.5 "MW" H1 H2)
    as [T1 [T2 T3]].
  split; [| split].
  - exact (T1 LNone "K" eq_refl).
  - exact (proj1 (T2 [1; 2] [5000; 6000; 7000] (le_n 2) (le_S _ _ (le_n 2)))
                 (le_n 3)).
  - refine (T3 LNone 909 H _). intros v; discriminate.
Defined.

Lemma LMC_init_value (lambdaV e Rv : R) :
  0 < lambdaV -> 0.89 < Rv ->
  exists a0 : R,
    LMCExtinction__init__ lambdaV (NScalar e) Rv
    = Ok (mkEBmV (mkExtinction
                    (FMExtinction_f (-0.890) 0.998 2.719 0.400 4.579 0.934 Rv)
                    None (NScalar a0) None) Rv).
Proof.
  intros Hl HRv.
  assert (0 < 1e4 / lambdaV) by (apply Rdiv_lt_0_compat; lra).
  assert (Hp : 0 < FM_shape (-0.890) 0.998 2.719 0.400 4.579 0.934 Rv lambdaV)
    by (apply FM_shape_positive; lra).
  assert (HR : Rv <> 0) by lra.
  destruct (EBmV_init_ok lambdaV
              (FMExtinction_f (-0.890) 0.998 2.719 0.400 4.579 0.934 Rv)
              _ e Rv (FM_f_scalar _ _ _ _ _ _ _ _) (Rgt_not_eq _ _ Hp) HR)
    as [E _].
  eexists; exact E.
Qed.

(** For the Magellanic Cloud laws [extinction_correction] hands its
    arguments to [correctFlux], and the promise of its docstring, that a
    [lineflux] of [None] returns the extinction, does not hold: with
    [exttype] ['LMC'] and a non-zero wavelength the call raises
    [TypeError], while [False] gives a flux of zero. *)
Theorem extinction_correction_LMC_None :
  forall (bandwl : string -> option R) (lambdaV Rv e w : R),
    0 < lambdaV -> 0.89 < Rv -> w <> 0 ->
    extinction_correction bandwl lambdaV LNone (WValue (NScalar w))
                          (NScalar e) Rv "LMC"
    = Raise TypeError /\
    exists z : R,
      extinction_correction bandwl lambdaV LFalse (WValue (NScalar w))
                            (NScalar e) Rv "LMC"
      = Ok (NScalar z) /\ z = 0.
Proof.
  intros bandwl lambdaV Rv e w Hl HRv _.
  destruct (LMC_init_value lambdaV e Rv Hl HRv) as [a0 E].
  unfold extinction_correction; cbn [String.eqb Ascii.eqb Bool.eqb].
  rewrite E; cbn [bind base correctFlux_of_args np_to_py].
  unfold correctFlux, call, self_f; cbn [attr_f klass_f A0 bind].
  rewrite FM_f_scalar; cbn [bind np_mul np_binop np_map].
  split; [reflexivity |].
  eexists; split; [reflexivity | lra].
Qed.

Lemma extinction_correction_LMC_None_witness :
  extinction_correction sample_bandwl 5500 LNone (WValue (NScalar 5000))
                        (NScalar 0.3) 3.41 "LMC"
  = Raise TypeError.
Proof.
  assert (H1 : 0 < 5500) by lra.
  assert (H2 : 0.89 < 3.41) by lra.
  assert (H3 : 5000 <> 0) by lra.
  exact (proj1 (extinction_correction_LMC_None sample_bandwl 5500 3.41 0.3 5000
                  H1 H2 H3)).
Defined.

(* ================================================================== *)
(** * Properties of the date conversions *)
(* ================================================================== *)

(** The two epoch conversions and their inverses: converting an epoch to
    a Julian day and back, or a Julian day to an epoch and back, gives the
    value one started from, for Julian and for Besselian epochs; a Julian
    year is 365.25 days and the epoch 2000 is the day 2451545. *)
Theorem epoch_conversions_inverse :
  (forall e : R, jd_to_epoch (epoch_to_jd e) = e) /\
  (forall jd : R, epoch_to_jd (jd_to_epoch jd) = jd) /\
  (forall b : R, jd_to_besselian_epoch (besselian_epoch_to_jd b) = b) /\
  (forall jd : R, besselian_epoch_to_jd (jd_to_besselian_epoch jd) = jd) /\
  (forall e : R, epoch_to_jd (e + 1) - epoch_to_jd e = 365.25) /\
  epoch_to_jd 2000 = 2451545.
Proof.
  unfold jd_to_epoch, epoch_to_jd, jd_to_besselian_epoch, besselian_epoch_to_jd.
  repeat split; intros; lra.
Qed.

Lemma wrap64_id (z : Z) : (- 2 ^ 63 <= z < 2 ^ 63)%Z -> wrap64 z = z.
Proof. intros H; unfold wrap64; rewrite Z.mod_small; lia. Qed.

Ltac unwrap64 :=
  repeat match goal with
         | |- context [wrap64 ?z] =>
             lazymatch z with
             | context [wrap64 _] => fail
             | _ => rewrite (wrap64_id z)
                 by (Z.to_euclidean_division_equations; lia)
             end
         end.

(** In the range of dates that matter no [int64] operation wraps. *)
Lemma julian_day_number_exact (y m d : Z) :
  (- 10 ^ 12 <= y <= 10 ^ 12)%Z ->
  (- 10 ^ 12 <= m <= 10 ^ 12)%Z ->
  (- 10 ^ 12 <= d <= 10 ^ 12)%Z ->
  julian_day_number y m d = civil_day_number y m d.
Proof.
  intros Hy Hm Hd; unfold julian_day_number, civil_day_number; cbv zeta.
  change (10 ^ 12)%Z with 1000000000000%Z in *.
  unwrap64. reflexivity.
Qed.

Ltac quot_consts :=
  repeat match goal with
         | |- context [Z.quot ?a ?b] =>
             let v := eval vm_compute in (Z.quot a b) in
             change (Z.quot a b) with v
         end.

Lemma civil_next_in_month (y m d : Z) :
  civil_day_number y m (d + 1) = (civil_day_number y m d + 1)%Z.
Proof. unfold civil_day_number; cbv zeta; lia. Qed.

Lemma civil_next_month (y m : Z) :
  (1 <= m < 12)%Z ->
  civil_day_number y (m + 1) 1
  = (civil_day_number y m (days_in_month y m) + 1)%Z.
Proof.
  intros Hm; unfold civil_day_number, days_in_month, leap_year.
  assert (m = 1 \/ m = 2 \/ m = 3 \/ m = 4 \/ m = 5 \/ m = 6 \/ m = 7
          \/ m = 8 \/ m = 9 \/ m = 10 \/ m = 11)%Z as H by lia.
  repeat (destruct H as [-> | H]); try subst m; cbv zeta; quot_consts;
    cbn -[Z.div Z.modulo Z.mul Z.add Z.sub];
    repeat match goal with
           | |- context [(?a mod ?b =? 0)%Z] =>
               destruct (Z.eqb_spec (a mod b) 0)
           end;
    cbn -[Z.div Z.modulo Z.mul Z.add Z.sub];
    try (Z.div_mod_to_equations; lia).
Qed.

Lemma civil_next_year (y : Z) :
  civil_day_number (y + 1) 1 1 = (civil_day_number y 12 31 + 1)%Z.
Proof.
  unfold civil_day_number; cbv zeta; quot_consts.
  Z.div_mod_to_equations; lia.
Qed.

Lemma days_in_month_bounds (y m : Z) : (28 <= days_in_month y m <= 31)%Z.
Proof.
  unfold days_in_month.
  destruct (m =? 2)%Z; [destruct (leap_year y); lia |].
  destruct ((m =? 4) || (m =? 6) || (m =? 9) || (m =? 11))%Z; lia.
Qed.

Lemma civil_next_day (y m d : Z) :
  valid_date y m d ->
  let '(y', m', d') := next_day y m d in
  civil_day_number y' m' d' = (civil_day_number y m d + 1)%Z.
Proof.
  intros [Hm Hd]; unfold next_day.
  destruct (Z.ltb_spec d (days_in_month y m)) as [H | H].
  - apply civil_next_in_month.
  - assert (d = days_in_month y m) by lia; subst d.
    destruct (Z.ltb_spec m 12) as [H12 | H12].
    + apply civil_next_month; lia.
    + assert (m = 12%Z) by lia; subst m.
      replace (days_in_month y 12) with 31%Z by reflexivity.
      apply civil_next_year.
Qed.

Lemma next_day_bounds (y m d : Z) :
  valid_date y m d ->
  let '(y', m', d') := next_day y m d in
  (y <= y' <= y + 1 /\ 1 <= m' <= 12 /\ 1 <= d' <= 31)%Z.
Proof.
  intros [Hm Hd]; unfold next_day.
  pose proof (days_in_month_bounds y m).
  destruct (d <? days_in_month y m)%Z eqn:E1; [apply Z.ltb_lt in E1; lia |].
  destruct (m <? 12)%Z eqn:E2; [apply Z.ltb_lt in E2; lia | lia].
Qed.

Lemma gregorian_to_jd_six (minus : pydt -> R -> pydt) (y m d : Z)
    (hr min sec : tnum) :
  gregorian_to_jd minus (GNumbers [TInt y; TInt m; TInt d; hr; min; sec]) UNone
  = Ok (NScalar (julian_date y m d (to_float hr) (to_float min) (to_float sec))).
Proof. reflexivity. Qed.

(** [gregorian_to_jd] follows the Gregorian calendar: for every valid
    date with a year between -10^9 and 10^9, the day that follows it in
    the calendar (through the ends of months, leap Februaries and the end
    of the year) has a Julian date greater by exactly 1 at the same time
    of day. *)
Theorem gregorian_to_jd_next_day :
  forall (minus : pydt -> R -> pydt) (y m d : Z) (hr min sec : tnum),
    (- 10 ^ 9 <= y <= 10 ^ 9)%Z ->
    valid_date y m d ->
    exists (jd : R),
      gregorian_to_jd minus (GNumbers [TInt y; TInt m; TInt d; hr; min; sec]) UNone
      = Ok (NScalar jd) /\
      let '(y', m', d') := next_day y m d in
      exists jd' : R,
        gregorian_to_jd minus
          (GNumbers [TInt y'; TInt m'; TInt d'; hr; min; sec]) UNone
        = Ok (NScalar jd') /\
        jd' = jd + 1.
Proof.
  intros minus y m d hr min sec Hy Hv.
  pose proof (civil_next_day y m d Hv) as Hn.
  pose proof (next_day_bounds y m d Hv) as Hb.
  pose proof (days_in_month_bounds y m) as Hdim.
  destruct Hv as [Hm Hd].
  eexists; split; [apply gregorian_to_jd_six |].
  destruct (next_day y m d) as [[y' m'] d'].
  eexists; split; [apply gregorian_to_jd_six |].
  unfold julian_date.
  change (10 ^ 9)%Z with 1000000000%Z in *.
  rewrite !julian_day_number_exact
    by (change (10 ^ 12)%Z with 1000000000000%Z; lia).
  rewrite Hn, plus_IZR. lra.
Qed.

Lemma gregorian_to_jd_next_day_witness :
  exists (jd : R),
    gregorian_to_jd (fun d _ => d)
      (GNumbers [TInt 2024; TInt 2; TInt 29; TInt 6; TInt 0; TFloat 0]) UNone
    = Ok (NScalar jd) /\
    let '(y', m', d') := next_day 2024 2 29 in
    exists jd' : R,
      gregorian_to_jd (fun d _ => d)
        (GNumbers [TInt y'; TInt m'; TInt d'; TInt 6; TInt 0; TFloat 0]) UNone
      = Ok (NScalar jd') /\
      jd' = jd + 1.
Proof.
  assert (Hy : (- 10 ^ 9 <= 2024 <= 10 ^ 9)%Z) by (vm_compute; split; discriminate).
  assert (Hv : valid_date 2024 2 29) by (vm_compute; repeat split; discriminate).
  exact (gregorian_to_jd_next_day (fun d _ => d) 2024 2 29
           (TInt 6) (TInt 0) (TFloat 0) Hy Hv).
Defined.

(** The time of day and the offset from UTC.  Leaving out hour, minute
    and second means midnight; given, they add [hr/24 + min/1440 +
    sec/86400] days to the date of midnight, and an offset of [off] hours
    takes [off/24] days away.  The day count is anchored at noon of
    1 January 2000, the Julian date 2451545 of Julian epoch 2000. *)
Theorem gregorian_to_jd_time_of_day :
  forall (minus : pydt -> R -> pydt),
    (forall (y m d : Z) (hr min sec : tnum),
        exists jd0 jd : R,
          gregorian_to_jd minus (GNumbers [TInt y; TInt m; TInt d]) UNone
          = Ok (NScalar jd0) /\
          gregorian_to_jd minus (GNumbers [TInt y; TInt m; TInt d; hr; min; sec])
                          UNone
          = Ok (NScalar jd) /\
          jd = jd0 + to_float hr / 24 + to_float min / 1440
               + to_float sec / 86400 /\
          forall off : R,
            gregorian_to_jd minus
              (GNumbers [TInt y; TInt m; TInt d; hr; min; sec]) (UHours off)
            = Ok (NScalar (jd - off / 24))) /\
    exists jd_noon : R,
      gregorian_to_jd minus (GNumbers [TInt 2000; TInt 1; TInt 1; TInt 12]) UNone
      = Ok (NScalar jd_noon) /\
      jd_noon = 2451545 /\ jd_to_epoch jd_noon = 2000.
Proof.
  intros minus; split.
  - intros y m d hr min sec.
    exists (julian_date y m d (IZR 0) (IZR 0) (IZR 0)),
           (julian_date y m d (to_float hr) (to_float min) (to_float sec)).
    split; [reflexivity | split; [reflexivity | split]].
    + unfold julian_date; lra.
    + intros off.
      change (gregorian_to_jd minus
                (GNumbers [TInt y; TInt m; TInt d; hr; min; sec]) (UHours off))
        with (Ok (NScalar
                    (shift_utc (UHours off)
                       (julian_date y m d (to_float hr) (to_float min)
                                    (to_float sec))))).
      unfold shift_utc.
      destruct (Req_dec off 0) as [-> | Hoff].
      * rewrite Rnonzero_zero. do 2 f_equal. lra.
      * rewrite (Rnonzero_true _ Hoff). do 2 f_equal. lra.
  - assert (E : julian_day_number 2000 1 1 = 2451545%Z) by (vm_compute; reflexivity).
    exists (julian_date 2000 1 1 (IZR 12) (IZR 0) (IZR 0)).
    unfold jd_to_epoch, julian_date; rewrite E.
    split; [reflexivity | split; lra].
Qed.




Lemma gregorian_to_jd_object (minus : pydt -> R -> pydt) (d : pydt) :
  gregorian_to_jd minus (GObject d) UNone
  = Ok (NScalar (julian_date (dt_year d) (dt_month d) (dt_day d)
                             (IZR 0) (IZR 0) (IZR 0 + IZR 0 / 1e6))).
Proof. destruct d as [[|] y m dd h mi se us off]; reflexivity. Qed.

(** Because every [datetime] is a [date], the loop of [gregorian_to_jd]
    replaces each object by the midnight of its calendar day: hour,
    minute, second, microsecond and time zone of a [datetime] do not
    reach the result, which is the Julian date of 0h of that day. *)
Theorem gregorian_to_jd_drops_time_of_day :
  forall (minus : pydt -> R -> pydt) (d : pydt),
    exists jd : R,
      gregorian_to_jd minus (GObject d) UNone = Ok (NScalar jd) /\
      jd = IZR (julian_day_number (dt_year d) (dt_month d) (dt_day d)) - 0.5 /\
      gregorian_to_jd minus
        (GNumbers [TInt (dt_year d); TInt (dt_month d); TInt (dt_day d)]) UNone
      = Ok (NScalar (julian_date (dt_year d) (dt_month d) (dt_day d)
                                 (IZR 0) (IZR 0) (IZR 0))) /\
      julian_date (dt_year d) (dt_month d) (dt_day d) (IZR 0) (IZR 0) (IZR 0) = jd.
Proof.
  intros minus d.
  exists (julian_date (dt_year d) (dt_month d) (dt_day d)
                      (IZR 0) (IZR 0) (IZR 0 + IZR 0 / 1e6)).
  split; [apply gregorian_to_jd_object | split; [| split]].
  - unfold julian_date; lra.
  - reflexivity.
  - unfold julian_date; lra.
Qed.

(** Inputs that never give a date: the name of a time zone as
    [utcoffset], an empty sequence, and a list of [datetime] objects that
    does not have exactly one element. *)
Theorem gregorian_to_jd_never_works :
  forall (minus : pydt -> R -> pydt),
    (forall (gtime : gtime_arg) (s : string),
        exists e, gregorian_to_jd minus gtime (UName s) = Raise e) /\
    (forall utcoffset : utcoffset_arg,
        gregorian_to_jd minus (GNumbers []) utcoffset = Raise TypeError) /\
    (forall (ds : list pydt) (utcoffset : utcoffset_arg),
        forallb isinstance_datetime ds = true ->
        List.length ds <> 1%nat ->
        gregorian_to_jd minus (GObjects ds) utcoffset = Raise TypeError).
Proof.
  intros minus; split; [| split].
  - intros gtime s; unfold gregorian_to_jd.
    destruct gtime as [d | ds | [| t l]];
      try (eexists; reflexivity).
    + destruct (forallb isinstance_datetime ds); [eexists; reflexivity |].
      destruct (negb _); [eexists; reflexivity | eexists; reflexivity].
    + cbv beta iota zeta.
      destruct (negb _); [eexists; reflexivity |].
      destruct (pad6 (t :: l)) as [| a [| b [| c [| d [| e [| f [| g r]]]]]]];
        eexists; reflexivity.
  - intros utcoffset; unfold gregorian_to_jd; destruct utcoffset; reflexivity.
  - intros ds utcoffset Hall Hlen; unfold gregorian_to_jd; rewrite Hall.
    destruct utcoffset as [| h | s]; try reflexivity;
      destruct ds as [| d [| d' ds]]; try reflexivity; try (now elim Hlen);
      cbn [map]; destruct (gather minus _ d) as [[[[[? ?] ?] ?] ?] ?];
      destruct (gather minus _ d') as [[[[[? ?] ?] ?] ?] ?]; reflexivity.
Qed.

Lemma gregorian_to_jd_never_works_witness :
  gregorian_to_jd (fun d _ => d)
    (GObjects [mkDt KDatetime 2000 1 1 0 0 0 0 None;
               mkDt KDatetime 2000 1 2 0 0 0 0 None]) UNone
  = Raise TypeError.
Proof.
  refine (proj2 (proj2 (gregorian_to_jd_never_works (fun d _ => d)))
                [mkDt KDatetime 2000 1 1 0 0 0 0 None;
                 mkDt KDatetime 2000 1 2 0 0 0 0 None] UNone eq_refl _).
  discriminate.
Defined.

(* ================================================================== *)
(** * Further properties of the laws *)
(* ================================================================== *)

Lemma ccm_a_at_8 : ccm_a 8 = -1.073.
Proof. unfold ccm_a; split_Rleb; unfold polyval; simpl; lra. Qed.

Lemma ccm_b_at_8 : ccm_b 8 = 13.67.
Proof. unfold ccm_b; split_Rleb; unfold polyval; simpl; lra. Qed.

Lemma inv_square_bound (x c o lo : R) :
  0 < lo -> 0 <= o -> lo <= x - c ->
  0 < / ((x - c) ^ 2 + o) <= / (lo ^ 2 + o).
Proof.
  intros Hlo Ho Hx.
  assert (H1 : lo ^ 2 <= (x - c) ^ 2) by (simpl; nra).
  assert (H2 : 0 < lo ^ 2 + o) by (simpl; nra).
  split.
  - apply Rinv_0_lt_compat; lra.
  - apply Rinv_le_contravar; lra.
Qed.

Lemma ccm_a_below_8 (x : R) : 7.9 <= x < 8 -> ccm_a x < -0.7444.
Proof.
  intros [H1 H2]; unfold ccm_a.
  rewrite (Rleb_false 8 x H2), (Rleb_true 5.9 x) by lra.
  unfold ccm_nuv_a.
  assert (Hp : 0 < / ((x - 4.67) ^ 2 + 0.341) <= / (3.23 ^ 2 + 0.341))
    by (apply inv_square_bound; lra).
  unfold Rdiv; lra.
Qed.

Lemma ccm_b_below_8 (x : R) : 7.9 <= x < 8 -> ccm_b x < 11.62.
Proof.
  intros [H1 H2]; unfold ccm_b.
  rewrite (Rleb_false 8 x H2), (Rleb_true 5.9 x) by lra.
  unfold ccm_nuv_b.
  assert (Hp : 0 < / ((x - 4.62) ^ 2 + 0.263) <= / (3.28 ^ 2 + 0.263))
    by (apply inv_square_bound; lra).
  assert (Hc : / (3.28 ^ 2 + 0.263) < 0.0908) by (simpl; lra).
  unfold Rdiv; lra.
Qed.

(** The CCM curve as coded is not continuous at the far-ultraviolet
    boundary [x = 8]: for [0 < Rv <= 3.3], the shape at [x = 8] exceeds
    the shape at every [x] of [7.9 <= x < 8] by more than 0.29. *)
Theorem Cardelli_jump_at_far_uv :
  forall (Rv : R) (junk_a junk_b : nat -> R) (lamb lamb8 : R),
    0 < Rv <= 3.3 ->
    1e4 / lamb8 = 8 ->
    7.9 <= 1e4 / lamb < 8 ->
    exists s s8 : R,
      CardelliExtinction_f Rv junk_a junk_b (PNum lamb) = Ok (NScalar s) /\
      CardelliExtinction_f Rv junk_a junk_b (PNum lamb8) = Ok (NScalar s8) /\
      s + 0.29 < s8.
Proof.
  intros Rv ja jb lamb lamb8 [HR1 HR2] H8 Hx.
  exists (ccm_shape Rv lamb), (ccm_shape Rv lamb8).
  split; [apply CCM_f_scalar_in; unfold ccm_in_range; lra |].
  split; [apply CCM_f_scalar_in; unfold ccm_in_range; lra |].
  unfold ccm_shape; rewrite H8, ccm_a_at_8, ccm_b_at_8.
  pose proof (ccm_a_below_8 _ Hx) as Ha.
  pose proof (ccm_b_below_8 _ Hx) as Hb.
  assert (Hi : / 3.3 <= / Rv) by (apply Rinv_le_contravar; lra).
  assert (Hp : 0 < / Rv) by (apply Rinv_0_lt_compat; lra).
  unfold Rdiv.
  assert (Hd : 2.05 * / 3.3 <= (13.67 - ccm_b (1e4 / lamb)) * / Rv) by nra.
  assert (Hc : 0.62 < 2.05 * / 3.3) by lra.
  nra.
Qed.

Lemma Cardelli_jump_at_far_uv_witness :
  exists s s8 : R,
    CardelliExtinction_f 3.1 (fun _ => 0) (fun _ => 0) (PNum (1e4 / 7.95))
    = Ok (NScalar s) /\
    CardelliExtinction_f 3.1 (fun _ => 0) (fun _ => 0) (PNum 1250)
    = Ok (NScalar s8) /\
    s + 0.29 < s8.
Proof.
  assert (H1 : 0 < 3.1 <= 3.3) by lra.
  assert (H2 : 1e4 / 1250 = 8) by lra.
  assert (H3 : 7.9 <= 1e4 / (1e4 / 7.95) < 8) by lra.
  exact (Cardelli_jump_at_far_uv 3.1 (fun _ => 0) (fun _ => 0)
           (1e4 / 7.95) 1250 H1 H2 H3).
Defined.

Lemma atoms_nums_map_ANum (l : list R) : atoms_nums (map ANum l) = Some l.
Proof. induction l as [| x l IH]; simpl; [reflexivity | now rewrite IH]. Qed.

(** Which kinds of input the three laws take.  The Fitzpatrick-Massa and
    the CCM law convert their argument to an array first, so a Python list
    of wavelengths gives what the array of the same wavelengths gives; the
    law of Calzetti divides by its argument as it is, and a list is a
    [TypeError]. *)
Theorem laws_and_lists :
  forall lambs : list R,
    (forall C1 C2 C3 C4 x0 gamma Rv,
        FMExtinction_f C1 C2 C3 C4 x0 gamma Rv (PSeq (map ANum lambs))
        = FMExtinction_f C1 C2 C3 C4 x0 gamma Rv (PArr lambs)) /\
    (forall Rv junk_a junk_b,
        CardelliExtinction_f Rv junk_a junk_b (PSeq (map ANum lambs))
        = CardelliExtinction_f Rv junk_a junk_b (PArr lambs)) /\
    CalzettiExtinction_f (PSeq (map ANum lambs)) = Raise TypeError.
Proof.
  intros lambs; split; [| split].
  - intros; unfold FMExtinction_f; cbn [np_array].
    now rewrite atoms_nums_map_ANum.
  - intros; unfold CardelliExtinction_f, np_atleast_1d; cbn [np_array np_isscalar].
    now rewrite atoms_nums_map_ANum.
  - reflexivity.
Qed.

(** Correcting a colour is correcting its two magnitudes: for two band
    names of the table, or for two wavelengths, [correctColor] of
    [m1 - m2] is the difference of the two results of
    [correctPhotometry]. *)
Theorem correctColor_is_difference_of_magnitudes :
  forall (bandwl : string -> option R) (self : Extinction) (b1 b2 : atom)
         (w1 w2 e1 e2 m1 m2 : R),
    (b1 = ANum w1 /\ b2 = ANum w2) \/
    (exists n1 n2, b1 = AStr n1 /\ b2 = AStr n2 /\
                   bandwl n1 = Some w1 /\ bandwl n2 = Some w2) ->
    call self (PNum w1) = Ok (NScalar e1) ->
    call self (PNum w2) = Ok (NScalar e2) ->
    exists c c1 c2 : R,
      correctColor bandwl self (NScalar (m1 - m2)) (PSeq [b1; b2]) = Ok (NScalar c) /\
      correctPhotometry bandwl self (NScalar m1) (atom_val b1) = Ok (NScalar c1) /\
      correctPhotometry bandwl self (NScalar m2) (atom_val b2) = Ok (NScalar c2) /\
      c = c1 - c2.
Proof.
  intros bandwl self b1 b2 w1 w2 e1 e2 m1 m2 Hb H1 H2.
  exists (m1 - m2 - e1 + e2), (m1 - e1), (m2 - e2).
  destruct Hb as [[-> ->] | [n1 [n2 [-> [-> [Hn1 Hn2]]]]]].
  - rewrite correctColor_of_pair; unfold correctPhotometry.
    cbn [atom_is_str atom_val bind]; rewrite H1, H2.
    repeat split; lra.
  - rewrite correctColor_of_pair; unfold correctPhotometry.
    cbn [atom_is_str atom_val bind band_lookup]; rewrite Hn1, Hn2.
    cbn [bind]; rewrite H1, H2.
    repeat split; lra.
Qed.

Lemma correctColor_is_difference_of_magnitudes_witness :
  exists c c1 c2 : R,
    correctColor sample_bandwl (inverse_law (NScalar 2)) (NScalar (15 - 14.5))
                 (PSeq [AStr "B"; AStr "V"]) = Ok (NScalar c) /\
    correctPhotometry sample_bandwl (inverse_law (NScalar 2)) (NScalar 15)
                      (PStr "B") = Ok (NScalar c1) /\
    correctPhotometry sample_bandwl (inverse_law (NScalar 2)) (NScalar 14.5)
                      (PStr "V") = Ok (NScalar c2) /\
    c = c1 - c2.
Proof.
  exact (correctColor_is_difference_of_magnitudes sample_bandwl
           (inverse_law (NScalar 2)) (AStr "B") (AStr "V") 4400 5500
           (2 * (1e4 / 4400)) (2 * (1e4 / 5500)) 15 14.5
           (or_intror (ex_intro _ "B" (ex_intro _ "V"
              (conj eq_refl (conj eq_refl (conj eq_refl eq_refl))))))
           eq_refl eq_refl).
Defined.
